(** * Chunk segmentation, ingestion preparation and query filters of docling_testbed

    A shallow embedding of the designed logic of the repository:
    - [src/pdf_to_rag.py]: [chunk_text] and the per-item decision of
      [extract_rag_chunks];
    - [src/chromadb_config.py]: the constants of [ChromaDBConfig];
    - [src/ingest_to_chromadb.py]: [prepare_chunk_data] and the batch loop of
      [ingest_to_chromadb];
    - [src/query_chromadb.py]: [similarity_search] and [search_by_page_range].

    Python integers are [Z]; a Python [str] is a list of characters, taken
    among the 256 code points of [ascii]; a loop that may run for ever takes
    a fuel argument and answers [None] when the fuel runs out; an exception
    is an explicit [Raise]. *)

From Stdlib Require Import ZArith Ascii String DecimalString Lia.
From Stdlib Require DecimalZ.
From stdpp Require Import base list gmap strings.

Local Open Scope Z_scope.

(** ** Python values *)

Abbreviation str := (list ascii).

(** A string literal of the source. *)
Definition py_str (s : string) : str := list_ascii_of_string s.

(** [len(x)] *)
Definition len {A} (l : list A) : Z := Z.of_nat (length l).

(** [s[i]]: a negative index counts from the end, an index out of range
    raises IndexError (here [None]). *)
Definition getitem {A} (s : list A) (i : Z) : option A :=
  if (i <? - len s) || (len s <=? i) then None
  else s !! Z.to_nat (if i <? 0 then i + len s else i).

(** The bounds of a slice are adjusted as CPython does for a step of 1:
    a negative bound counts from the end, and both are clipped to
    [0 .. len]. *)
Definition adjust_index (n i : Z) : Z :=
  if i <? 0 then Z.max (i + n) 0 else Z.min i n.

(** [s[lo:hi]] *)
Definition slice {A} (s : list A) (lo hi : Z) : list A :=
  let lo' := adjust_index (len s) lo in
  let hi' := adjust_index (len s) hi in
  take (Z.to_nat (hi' - lo')) (drop (Z.to_nat lo') s).

(** [c.isspace()] on the code points below 256: TAB..CR, FS..US, space,
    NEL and NBSP. *)
Definition isspace (c : ascii) : bool :=
  let n := N_of_ascii c in
  ((9 <=? n) && (n <=? 13) || (28 <=? n) && (n <=? 32)
   || (n =? 133) || (n =? 160))%N.

Fixpoint lstrip (s : str) : str :=
  match s with
  | [] => []
  | c :: r => if isspace c then lstrip r else s
  end.

Definition rstrip (s : str) : str := reverse (lstrip (reverse s)).

(** [s.strip()] *)
Definition strip (s : str) : str := rstrip (lstrip s).

Inductive exn : Type := IndexError.

Inductive result (A : Type) : Type :=
| Ok (a : A)
| Raise (e : exn).
Arguments Ok {A} a.
Arguments Raise {A} e.

(** ** src/pdf_to_rag.py: chunk_text *)

Definition newline : ascii := ascii_of_N 10.

(** [text[i] in '.!?\n'] *)
Definition sentence_end (c : ascii) : bool :=
  existsb (Ascii.eqb c) (py_str ".!?" ++ [newline]).

(** The [for i in range(end, stop, -1)] loop: [n] values of [i] are left,
    the next one is [i].  [Ok (Some e)] is the new [end] at the [break],
    [Ok None] the exhausted range. *)
Fixpoint sentence_break (text : str) (n : nat) (i : Z) : result (option Z) :=
  match n with
  | O => Ok None
  | S n' =>
      match getitem text i with
      | None => Raise IndexError
      | Some c =>
          if sentence_end c then Ok (Some (i + 1))
          else sentence_break text n' (i - 1)
      end
  end.

(** Number of values of [range(hi, lo, -1)]. *)
Definition range_down (hi lo : Z) : nat := Z.to_nat (hi - lo).

(** The boundary chosen in one iteration of the [while] loop. *)
Definition boundary (text : str) (chunk_size start : Z) : result Z :=
  let end_ := start + chunk_size in
  if end_ <? len text then
    match sentence_break text
            (range_down end_ (Z.max (start + chunk_size - 100) start)) end_ with
    | Ok (Some e) => Ok e
    | Ok None => Ok end_
    | Raise e => Raise e
    end
  else Ok end_.

(** The [while start < len(text)] loop. *)
Fixpoint chunk_loop (fuel : nat) (text : str) (chunk_size overlap : Z)
    (start : Z) (chunks : list str) : option (result (list str)) :=
  match fuel with
  | O => None
  | S fuel' =>
      if start <? len text then
        match boundary text chunk_size start with
        | Raise e => Some (Raise e)
        | Ok end_ =>
            let chunks' := chunks ++ [strip (slice text start end_)] in
            let start' := end_ - overlap in
            if len text <=? start' then Some (Ok chunks')
            else chunk_loop fuel' text chunk_size overlap start' chunks'
        end
      else Some (Ok chunks)
  end.

Definition chunk_text (fuel : nat) (text : str) (chunk_size overlap : Z)
  : option (result (list str)) :=
  if len text <=? chunk_size then Some (Ok [text])
  else chunk_loop fuel text chunk_size overlap 0 [].

(** ** src/pdf_to_rag.py: extract_rag_chunks *)

(** An item of [doc.iterate_items()], with what the loop body reads of it.
    An attribute the item does not have is [None]; [export_to_markdown] is
    absent ([None]), raises ([Some None]) or returns a string. *)
Record DocItem : Type := {
  item_text : option str;
  item_export_to_markdown : option (option str);
  item_label : option string;
  (** the [prov] entries, each with its [page_no] when it has one; a
      missing [prov] attribute reads as the empty list *)
  item_prov : list (option Z)
}.

Record Metadata : Type := {
  source : string;
  content_type : string;
  page : option Z;
  chunk_index : Z;
  total_chunks : Z;
  is_partial : bool
}.

(** [chunk_id] is an integer in [extract_rag_chunks] and a string
    ([table_<n>]) in [extract_tables_for_rag]. *)
Inductive ChunkId : Type :=
| IntId (n : Z)
| StrId (s : string).

Record Chunk : Type := {
  chunk_id : ChunkId;
  text : str;
  metadata : Metadata
}.

(** The text of an item: [None] is the [continue] of the [except] branch,
    [Some None] an item left without text. *)
Definition get_item_text (item : DocItem) : option (option str) :=
  match item_text item with
  | Some (c :: t) => Some (Some (c :: t))
  | _ =>
      match item_export_to_markdown item with
      | None => Some None
      | Some None => None
      | Some (Some md) => Some (Some md)
      end
  end.

(** [page_no] of the first [prov] entry that has one. *)
Fixpoint first_page_no (prov : list (option Z)) : option Z :=
  match prov with
  | [] => None
  | Some p :: _ => Some p
  | None :: rest => first_page_no rest
  end.

(** The [for i, text_chunk in enumerate(text_chunks)] loop. *)
Fixpoint emit_partial (src ctype : string) (page_num : option Z) (total : Z)
    (i : Z) (text_chunks : list str) (chunks : list Chunk) (chunk_id : Z)
  : list Chunk * Z :=
  match text_chunks with
  | [] => (chunks, chunk_id)
  | text_chunk :: rest =>
      let chunk_id := chunk_id + 1 in
      emit_partial src ctype page_num total (i + 1) rest
        (chunks ++ [{| chunk_id := IntId chunk_id;
                       text := text_chunk;
                       metadata := {| source := src;
                                      content_type := ctype;
                                      page := page_num;
                                      chunk_index := i;
                                      total_chunks := total;
                                      is_partial := true |} |}])
        chunk_id
  end.

(** The body of the loop over the items; the state is the list [chunks]
    and the counter [chunk_id]. *)
Definition process_item (fuel : nat) (src : string) (chunk_size overlap : Z)
    (item : DocItem) (st : list Chunk * Z)
  : option (result (list Chunk * Z)) :=
  let '(chunks, chunk_id) := st in
  match get_item_text item with
  | None => Some (Ok st)
  | Some None => Some (Ok st)
  | Some (Some item_text) =>
      if bool_decide (item_text = []) || bool_decide (strip item_text = [])
      then Some (Ok st)
      else
        let ctype := default "text"%string (item_label item) in
        let page_num := first_page_no (item_prov item) in
        if (chunk_size <? len item_text)
           && negb (String.eqb ctype "table")
        then
          match chunk_text fuel item_text chunk_size overlap with
          | None => None
          | Some (Raise e) => Some (Raise e)
          | Some (Ok text_chunks) =>
              Some (Ok (emit_partial src ctype page_num (len text_chunks)
                          0 text_chunks chunks chunk_id))
          end
        else
          let chunk_id := chunk_id + 1 in
          Some (Ok (chunks ++ [{| chunk_id := IntId chunk_id;
                                  text := strip item_text;
                                  metadata := {| source := src;
                                                 content_type := ctype;
                                                 page := page_num;
                                                 chunk_index := 0;
                                                 total_chunks := 1;
                                                 is_partial := false |} |}],
                    chunk_id))
  end.

Fixpoint process_items (fuel : nat) (src : string) (chunk_size overlap : Z)
    (items : list DocItem) (st : list Chunk * Z)
  : option (result (list Chunk * Z)) :=
  match items with
  | [] => Some (Ok st)
  | item :: rest =>
      match process_item fuel src chunk_size overlap item st with
      | None => None
      | Some (Raise e) => Some (Raise e)
      | Some (Ok st') => process_items fuel src chunk_size overlap rest st'
      end
  end.

(** [extract_rag_chunks], from the items of the converted document on;
    [src] is [Path(pdf_path).name]. *)
Definition extract_rag_chunks (fuel : nat) (src : string)
    (items : list DocItem) (chunk_size overlap : Z)
  : option (result (list Chunk)) :=
  match process_items fuel src chunk_size overlap items ([], 0) with
  | None => None
  | Some (Raise e) => Some (Raise e)
  | Some (Ok (chunks, _)) => Some (Ok chunks)
  end.

(** ** src/chromadb_config.py *)

Module ChromaDBConfig.
Record t : Type := {
  COLLECTION_NAME : string;
  BATCH_SIZE : Z;
  DEFAULT_N_RESULTS : Z;
  MAX_RESULTS : Z
}.

(** The class attributes, which an instance reads until one is assigned. *)
Definition default : t := {|
  COLLECTION_NAME := "docling_rag_chunks";
  BATCH_SIZE := 100;
  DEFAULT_N_RESULTS := 5;
  MAX_RESULTS := 50
|}.

Definition TABLE_CONTENT_TYPES : gset string :=
  {[ "table"%string; "document_index"%string ]}.
End ChromaDBConfig.

(** ** Metadata seen by the Vector Index Service *)

(** A metadata value: ChromaDB takes strings, integers and booleans. *)
Inductive Value : Type :=
| VStr (s : string)
| VInt (n : Z)
| VBool (b : bool).

(** A flat metadata dictionary. *)
Abbreviation MetadataDict := (gmap string Value).

(** ** src/ingest_to_chromadb.py: prepare_chunk_data *)

(** [str(n)] for an integer. *)
Definition str_of_Z (n : Z) : string := NilEmpty.string_of_int (Z.to_int n).

(** [f"chunk_{chunk['chunk_id']}"] *)
Definition format_chunk_id (c : ChunkId) : string :=
  ("chunk_" ++ match c with IntId n => str_of_Z n | StrId s => s end)%string.

(** Truth value of an [Optional[Set[str]]]: [None] and the empty set are
    false. *)
Definition truthy (types : option (gset string)) : bool :=
  match types with
  | None => false
  | Some s => bool_decide (s ≠ ∅)
  end.

(** [content_type in types], evaluated only where [types] is truthy. *)
Definition contains (types : option (gset string)) (ctype : string) : bool :=
  match types with
  | None => false
  | Some s => bool_decide (ctype ∈ s)
  end.

(** [x or 0] for an optional integer. *)
Definition or_zero (x : option Z) : Z :=
  match x with
  | None => 0
  | Some n => n
  end.

(** The metadata dictionary built for a chunk. *)
Definition chunk_metadata (chunk : Chunk) : MetadataDict :=
  let m := metadata chunk in
  {[ "source"%string := VStr (source m);
     "content_type"%string := VStr (content_type m);
     "page"%string := VInt (or_zero (page m));
     "chunk_index"%string := VInt (chunk_index m);
     "total_chunks"%string := VInt (total_chunks m);
     "is_partial"%string := VBool (is_partial m);
     "is_table"%string :=
       VBool (bool_decide (content_type m ∈ ChromaDBConfig.TABLE_CONTENT_TYPES));
     "char_count"%string := VInt (len (text chunk)) ]}.

(** The body of [for chunk in chunks]; the state is the three lists. *)
Definition prepare_chunk
    (include_types exclude_types : option (gset string))
    (st : list string * list str * list MetadataDict) (chunk : Chunk)
  : list string * list str * list MetadataDict :=
  let '(ids, documents, metadatas) := st in
  let ctype := content_type (metadata chunk) in
  if truthy include_types && negb (contains include_types ctype) then st
  else if truthy exclude_types && contains exclude_types ctype then st
  else (ids ++ [format_chunk_id (chunk_id chunk)],
        documents ++ [text chunk],
        metadatas ++ [chunk_metadata chunk]).

(** [prepare_chunk_data] on chunks that carry every key the loop
    subscripts, as those of [extract_rag_chunks] do;
    [prepare_chunk_data_loaded] below is the function on the dictionaries
    of a loaded file, which may lack keys. *)
Definition prepare_chunk_data (chunks : list Chunk)
    (include_types exclude_types : option (gset string))
  : list string * list str * list MetadataDict :=
  foldl (prepare_chunk include_types exclude_types) ([], [], []) chunks.

(** ** src/ingest_to_chromadb.py: the batch loop of ingest_to_chromadb *)

(** [range(0, stop, step)] for a step other than 0. *)
Definition range0 (stop step : Z) : list Z :=
  if 0 <? step
  then (λ k : nat, Z.of_nat k * step) <$> seq 0 (Z.to_nat ((stop + step - 1) `div` step))
  else [].

(** What the function prints from the batch loop on. *)
Inductive Line : Type :=
| NoChunksToIngest
| IngestingChunks (batch_size : Z)
| ErrorIngestingBatch (batch : Z) (e : string)
| IngestionComplete
| TotalDocuments (final_count : Z)
| CollectionName (name : string).

(** What the function does to the outside, in order: a call of
    [collection.add] with the exception it raised, if any; an update of
    the progress bar; a line printed. *)
Inductive Event : Type :=
| CollectionAdd (ids : list string) (documents : list str)
    (metadatas : list MetadataDict) (raised : option string)
| PbarUpdate (n : Z)
| Print (line : Line).

(** [if batch_size: config.BATCH_SIZE = batch_size] *)
Definition effective_batch_size (batch_size : option Z) : Z :=
  match batch_size with
  | Some b => if b =? 0 then ChromaDBConfig.BATCH_SIZE ChromaDBConfig.default else b
  | None => ChromaDBConfig.BATCH_SIZE ChromaDBConfig.default
  end.

(** The lines printed after the batch loop. *)
Definition final_statistics (final_count : Z) (name : string) : list Event :=
  [Print IngestionComplete; Print (TotalDocuments final_count);
   Print (CollectionName name)].

Section Ingestion.
(** The Vector Index Service: the state of a collection, [collection.add]
    (the state after the call, and the exception when it raised one) and
    [collection.count]. *)
Context {Collection : Type}.
Variable collection_add :
  Collection → list string → list str → list MetadataDict →
  Collection * option string.
Variable collection_count : Collection → Z.

(** The body of [for i in range(0, len(documents), config.BATCH_SIZE)]. *)
Definition ingest_batch (BATCH_SIZE : Z) (ids : list string)
    (documents : list str) (metadatas : list MetadataDict)
    (st : Collection * list Event) (i : Z) : Collection * list Event :=
  let '(collection, trace) := st in
  let batch_end := Z.min (i + BATCH_SIZE) (len documents) in
  let batch_ids := slice ids i batch_end in
  let batch_documents := slice documents i batch_end in
  let batch_metadatas := slice metadatas i batch_end in
  let call := CollectionAdd batch_ids batch_documents batch_metadatas in
  match collection_add collection batch_ids batch_documents batch_metadatas with
  | (collection, None) =>
      (collection, trace ++ [call None; PbarUpdate (len batch_ids)])
  | (collection, Some e) =>
      (collection,
       trace ++ [call (Some e);
                 Print (ErrorIngestingBatch (i `div` BATCH_SIZE + 1) e)])
  end.

Definition ingest_batches (BATCH_SIZE : Z) (ids : list string)
    (documents : list str) (metadatas : list MetadataDict)
    (st : Collection * list Event) : Collection * list Event :=
  foldl (ingest_batch BATCH_SIZE ids documents metadatas) st
    (range0 (len documents) BATCH_SIZE).

(** [ingest_to_chromadb] from [# Prepare data] to [# Final statistics],
    on the chunks of the loaded file and the collection obtained from the
    client.  The value returned is Python's [None]; the lines printed
    before the batch loop (configuration, counts per content type), the
    persistence directory and the sample query at the end, whose
    exceptions are caught, are left out. *)
Definition ingest_to_chromadb (collection : Collection)
    (chunks : list Chunk) (collection_name : option string)
    (include_types exclude_types : option (gset string))
    (batch_size : option Z) : Collection * list Event * unit :=
  let COLLECTION_NAME :=
    match collection_name with
    | Some (String c s) => String c s
    | _ => ChromaDBConfig.COLLECTION_NAME ChromaDBConfig.default
    end in
  let BATCH_SIZE := effective_batch_size batch_size in
  let '(ids, documents, metadatas) :=
    prepare_chunk_data chunks include_types exclude_types in
  match documents with
  | [] => (collection, [Print NoChunksToIngest], tt)
  | _ :: _ =>
      let '(collection, trace) :=
        ingest_batches BATCH_SIZE ids documents metadatas
          (collection, [Print (IngestingChunks BATCH_SIZE)]) in
      let final_count := collection_count collection in
      (collection, trace ++ final_statistics final_count COLLECTION_NAME, tt)
  end.

(** The state the service is left in by a sequence of calls, raised or
    not. *)
Definition after_calls (collection : Collection)
    (calls : list (list string * list str * list MetadataDict))
  : Collection :=
  foldl (λ c '(ids, documents, metadatas),
           (collection_add c ids documents metadatas).1) collection calls.
End Ingestion.

(** Reading a trace: the error lines printed, the calls of
    [collection.add] that raised, and the arguments of all the calls, in
    order. *)
Definition is_batch_error (e : Event) : bool :=
  match e with
  | Print (ErrorIngestingBatch _ _) => true
  | _ => false
  end.

Definition skipped_batches (trace : list Event) : nat :=
  length (List.filter is_batch_error trace).

Definition is_raised_add (e : Event) : bool :=
  match e with
  | CollectionAdd _ _ _ (Some _) => true
  | _ => false
  end.

Definition raised_adds (trace : list Event) : nat :=
  length (List.filter is_raised_add trace).

Fixpoint add_calls (trace : list Event)
  : list (list string * list str * list MetadataDict) :=
  match trace with
  | [] => []
  | CollectionAdd ids documents metadatas _ :: rest =>
      (ids, documents, metadatas) :: add_calls rest
  | _ :: rest => add_calls rest
  end.

(** The events of the batch loop: calls of [collection.add], updates of
    the progress bar and error lines. *)
Definition is_batch_event (e : Event) : bool :=
  match e with
  | CollectionAdd _ _ _ _ | PbarUpdate _ | Print (ErrorIngestingBatch _ _) => true
  | _ => false
  end.

(** The batch that starts at index [i]. *)
Definition batch_at (BATCH_SIZE : Z) (ids : list string)
    (documents : list str) (metadatas : list MetadataDict) (i : Z)
  : list string * list str * list MetadataDict :=
  let batch_end := Z.min (i + BATCH_SIZE) (len documents) in
  (slice ids i batch_end, slice documents i batch_end,
   slice metadatas i batch_end).

(** A sample service: the collection is the list of the ids stored; adding a
    batch that holds the id [chunk_2] raises and stores nothing. *)
Definition sample_add (collection : list string) (ids : list string)
    (documents : list str) (metadatas : list MetadataDict)
  : list string * option string :=
  if bool_decide ("chunk_2"%string ∈ ids) then (collection, Some "boom"%string)
  else (collection ++ ids, None).

Definition sample_chunk (n : Z) : Chunk :=
  {| chunk_id := IntId n;
     text := py_str "text";
     metadata := {| source := "doc.pdf"; content_type := "text";
                    page := Some 1; chunk_index := 0; total_chunks := 1;
                    is_partial := false |} |}.

(** The type filters as the specification words them: no [include_types],
    or an empty one, or the type is a member; no [exclude_types], or the
    type is not a member. *)
Definition passes_type_filters (include_types exclude_types : option (gset string))
    (ctype : string) : bool :=
  match include_types with
  | None => true
  | Some s => bool_decide (s = ∅) || bool_decide (ctype ∈ s)
  end
  && match exclude_types with
     | None => true
     | Some s => negb (bool_decide (ctype ∈ s))
     end.

(** ** src/query_chromadb.py *)

Inductive CmpOp : Type := Gte | Lte.

(** The filter dictionaries the module builds. *)
#[warnings="-register-all"]
Inductive Where : Type :=
| WhereEmpty                                        (* {} *)
| WhereEq (field : string) (v : Value)              (* {field: v} *)
| WhereCmp (field : string) (op : CmpOp) (v : Z)    (* {field: {"$gte": v}} *)
| WhereAnd (ws : list Where).                       (* {"$and": [...]} *)

Record QueryRequest : Type := {
  query_texts : list str;
  n_results : Z;
  where_ : option Where;
  where_document : option Where
}.

(** The answer of [collection.query]: one list per query text.  The
    distances are floating-point numbers, kept abstract. *)
Record QueryResult (Distance : Type) : Type := {
  res_ids : list (list string);
  res_documents : list (list str);
  res_metadatas : list (list MetadataDict);
  res_distances : list (list Distance)
}.
Arguments res_ids {Distance} _.
Arguments res_documents {Distance} _.
Arguments res_metadatas {Distance} _.
Arguments res_distances {Distance} _.

(** [self] of a [ChromaDBQuerier]: its configuration and the [query] method
    of its collection. *)
Record ChromaDBQuerier (Distance : Type) : Type := {
  config : ChromaDBConfig.t;
  collection_query : QueryRequest → QueryResult Distance
}.
Arguments config {Distance} _.
Arguments collection_query {Distance} _.

(** The request [similarity_search] sends. *)
Definition similarity_search_request (cfg : ChromaDBConfig.t) (query : str)
    (n_results : Z) (where_ where_document : option Where) : QueryRequest :=
  {| query_texts := [query];
     n_results := Z.min n_results (ChromaDBConfig.MAX_RESULTS cfg);
     where_ := where_;
     where_document := where_document |}.

Definition similarity_search {Distance} (self : ChromaDBQuerier Distance)
    (query : str) (n_results : Z) (where_ where_document : option Where)
  : QueryResult Distance :=
  collection_query self
    (similarity_search_request (config self) query n_results where_ where_document).

(** The [where_filter] of [search_by_page_range]. *)
Definition page_range_filter (page_min page_max : option Z) : Where :=
  match page_min, page_max with
  | Some lo, Some hi =>
      WhereAnd [WhereCmp "page" Gte lo; WhereCmp "page" Lte hi]
  | Some lo, None => WhereCmp "page" Gte lo
  | None, Some hi => WhereCmp "page" Lte hi
  | None, None => WhereEmpty
  end.

Definition search_by_page_range {Distance} (self : ChromaDBQuerier Distance)
    (query : str) (page_min page_max : option Z) (n_results : Z)
  : QueryResult Distance :=
  similarity_search self query n_results
    (Some (page_range_filter page_min page_max)) None.

Definition search_by_content_type {Distance} (self : ChromaDBQuerier Distance)
    (query : str) (ctype : string) (n_results : Z) : QueryResult Distance :=
  similarity_search self query n_results
    (Some (WhereEq "content_type" (VStr ctype))) None.

Definition search_tables_only {Distance} (self : ChromaDBQuerier Distance)
    (query : str) (n_results : Z) : QueryResult Distance :=
  similarity_search self query n_results
    (Some (WhereEq "is_table" (VBool true))) None.

(** Modelled from the spec: the evaluation of a predicate on the metadata
    of a chunk, which the Vector Index Service (ChromaDB, outside this
    repository) performs: equality on a field, an inclusive bound on an
    integer field, the conjunction of a list, and the empty filter, which
    selects every chunk. *)
Fixpoint matches (w : Where) (m : MetadataDict) : bool :=
  match w with
  | WhereEmpty => true
  | WhereEq field v =>
      match m !! field with
      | Some (VStr s) => match v with VStr s' => String.eqb s s' | _ => false end
      | Some (VInt n) => match v with VInt n' => n =? n' | _ => false end
      | Some (VBool b) => match v with VBool b' => Bool.eqb b b' | _ => false end
      | None => false
      end
  | WhereCmp field op v =>
      match m !! field with
      | Some (VInt n) => match op with Gte => v <=? n | Lte => n <=? v end
      | _ => false
      end
  | WhereAnd ws => forallb (λ w', matches w' m) ws
  end.

(** ** The chunk dictionaries of the exchange file *)

(** The [metadata] dictionary of a chunk as the JSON file holds it: a key
    that is absent is [None]; [page] may be present and null. *)
Record MetadataKeys : Type := {
  key_source : option string;
  key_content_type : option string;
  key_page : option (option Z);
  key_chunk_index : option Z;
  key_total_chunks : option Z;
  key_is_partial : option bool;
  key_table_id : option Z
}.

(** A chunk dictionary: the keys [chunk_id], [text] and [metadata], which
    both writers set. *)
Record ChunkDict : Type := {
  dict_chunk_id : ChunkId;
  dict_text : str;
  dict_metadata : MetadataKeys
}.

(** The dictionary that [extract_rag_chunks] appends for a chunk. *)
Definition chunk_dict (c : Chunk) : ChunkDict :=
  {| dict_chunk_id := chunk_id c;
     dict_text := text c;
     dict_metadata :=
       {| key_source := Some (source (metadata c));
          key_content_type := Some (content_type (metadata c));
          key_page := Some (page (metadata c));
          key_chunk_index := Some (chunk_index (metadata c));
          key_total_chunks := Some (total_chunks (metadata c));
          key_is_partial := Some (is_partial (metadata c));
          key_table_id := None |} |}.

(** ** src/pdf_to_rag.py: extract_tables_for_rag *)

(** The dictionary appended for the table number [table_id]. *)
Definition table_dict (src : string) (table_id : Z) (page_num : option Z)
    (table_text : str) : ChunkDict :=
  {| dict_chunk_id := StrId ("table_" ++ str_of_Z table_id);
     dict_text := table_text;
     dict_metadata :=
       {| key_source := Some src;
          key_content_type := Some "table"%string;
          key_page := Some page_num;
          key_chunk_index := None;
          key_total_chunks := None;
          key_is_partial := None;
          key_table_id := Some table_id |} |}.

Section Tables.
(** [str(item)], which stands for the table when it has no
    [export_to_markdown] or when the export raises. *)
Variable item_str : DocItem → str.

Definition table_text (item : DocItem) : str :=
  match item_export_to_markdown item with
  | Some (Some markdown) => markdown
  | _ => item_str item
  end.

(** The body of the loop over the items; the state is the list
    [table_chunks] and the counter [table_id]. *)
Definition table_step (src : string) (st : list ChunkDict * Z)
    (item : DocItem) : list ChunkDict * Z :=
  let '(table_chunks, table_id) := st in
  if bool_decide (item_label item = Some "table"%string) then
    let table_id := table_id + 1 in
    (table_chunks ++ [table_dict src table_id
                        (first_page_no (item_prov item)) (table_text item)],
     table_id)
  else st.

(** [extract_tables_for_rag], from the items of the converted document on. *)
Definition extract_tables_for_rag (src : string) (items : list DocItem)
  : list ChunkDict :=
  (foldl (table_step src) ([], 0) items).1.

(** The chunks that [main] of [pdf_to_rag] saves: those of
    [extract_rag_chunks] and, with [--include-tables], those of
    [extract_tables_for_rag] after them.  The document is converted once
    for each function: [items] and [items_again]. *)
Definition main_chunks (fuel : nat) (src : string)
    (items items_again : list DocItem) (chunk_size overlap : Z)
    (include_tables : bool) : option (result (list ChunkDict)) :=
  match extract_rag_chunks fuel src items chunk_size overlap with
  | None => None
  | Some (Raise e) => Some (Raise e)
  | Some (Ok chunks) =>
      let chunks := chunk_dict <$> chunks in
      if include_tables then
        match extract_tables_for_rag src items_again with
        | [] => Some (Ok chunks)
        | table_chunk :: table_chunks =>
            Some (Ok (chunks ++ table_chunk :: table_chunks))
        end
      else Some (Ok chunks)
  end.
End Tables.

(** ** src/ingest_to_chromadb.py: prepare_chunk_data on a loaded file *)

(** The outcome of reading keys of dictionaries. *)
Inductive lookup (A : Type) : Type :=
| Found (a : A)
| KeyError (key : string).
Arguments Found {A} a.
Arguments KeyError {A} key.

Definition lookup_bind {A B} (x : lookup A) (f : A → lookup B) : lookup B :=
  match x with
  | Found a => f a
  | KeyError key => KeyError key
  end.

Notation "x ←' e ; k" := (lookup_bind e (λ x, k))
  (at level 20, e at level 100, k at level 200, only parsing).

(** [d[key]] *)
Definition getkey {A} (key : string) (value : option A) : lookup A :=
  match value with
  | Some a => Found a
  | None => KeyError key
  end.

(** The metadata dictionary of [prepare_chunk_data], from the values
    read. *)
Definition ingest_metadata (src ctype : string) (page_ chunk_index_ total : Z)
    (partial : bool) (text_ : str) : MetadataDict :=
  {[ "source"%string := VStr src;
     "content_type"%string := VStr ctype;
     "page"%string := VInt page_;
     "chunk_index"%string := VInt chunk_index_;
     "total_chunks"%string := VInt total;
     "is_partial"%string := VBool partial;
     "is_table"%string :=
       VBool (bool_decide (ctype ∈ ChromaDBConfig.TABLE_CONTENT_TYPES));
     "char_count"%string := VInt (len text_) ]}.

(** The body of [for chunk in chunks] on a dictionary whose metadata may
    lack keys: the keys are read in the order of the source. *)
Definition prepare_chunk_loaded
    (include_types exclude_types : option (gset string))
    (st : list string * list str * list MetadataDict) (chunk : ChunkDict)
  : lookup (list string * list str * list MetadataDict) :=
  let '(ids, documents, metadatas) := st in
  let md := dict_metadata chunk in
  ctype ←' getkey "content_type" (key_content_type md);
  if truthy include_types && negb (contains include_types ctype) then Found st
  else if truthy exclude_types && contains exclude_types ctype then Found st
  else
    let id := format_chunk_id (dict_chunk_id chunk) in
    let text_ := dict_text chunk in
    src ←' getkey "source" (key_source md);
    let page_ := or_zero (mjoin (key_page md)) in
    chunk_index_ ←' getkey "chunk_index" (key_chunk_index md);
    total ←' getkey "total_chunks" (key_total_chunks md);
    partial ←' getkey "is_partial" (key_is_partial md);
    Found (ids ++ [id], documents ++ [text_],
           metadatas ++ [ingest_metadata src ctype page_ chunk_index_ total
                           partial text_]).

Fixpoint prepare_chunks_loaded
    (include_types exclude_types : option (gset string))
    (st : list string * list str * list MetadataDict)
    (chunks : list ChunkDict)
  : lookup (list string * list str * list MetadataDict) :=
  match chunks with
  | [] => Found st
  | chunk :: rest =>
      st' ←' prepare_chunk_loaded include_types exclude_types st chunk;
      prepare_chunks_loaded include_types exclude_types st' rest
  end.

(** [prepare_chunk_data] on the chunk dictionaries of a loaded file. *)
Definition prepare_chunk_data_loaded (chunks : list ChunkDict)
    (include_types exclude_types : option (gset string))
  : lookup (list string * list str * list MetadataDict) :=
  prepare_chunks_loaded include_types exclude_types ([], [], []) chunks.

(** ** Counting documents by content type *)

#[global] Instance Value_eq_dec : EqDecision Value.
Proof. solve_decision. Defined.

(** A metadata value as a dictionary key: [True] is the key 1 and [False]
    the key 0. *)
Definition as_key (v : Value) : Value :=
  match v with
  | VBool b => VInt (Z.b2z b)
  | _ => v
  end.

(** [a == b] on keys. *)
Definition key_eqb (a b : Value) : bool := bool_decide (as_key a = as_key b).

(** A dictionary of counts: its items, in the order of insertion. *)
Abbreviation Counts := (list (Value * Z)).

(** [counts.get(key, 0)] *)
Fixpoint counts_get (counts : Counts) (key : Value) : Z :=
  match counts with
  | [] => 0
  | (k, n) :: rest => if key_eqb k key then n else counts_get rest key
  end.

(** [counts[key] = n]: an equal key keeps its place and gets the value, a
    new key goes last. *)
Fixpoint counts_set (counts : Counts) (key : Value) (n : Z) : Counts :=
  match counts with
  | [] => [(key, n)]
  | (k, m) :: rest =>
      if key_eqb k key then (k, n) :: rest
      else (k, m) :: counts_set rest key n
  end.

(** [counts[key] = counts.get(key, 0) + 1] *)
Definition count_one (counts : Counts) (key : Value) : Counts :=
  counts_set counts key (counts_get counts key + 1).

(** *** src/list_chromadb_collections.py: _get_content_type_counts *)

(** The key a document is counted under; the metadata of a document is
    [None] when it has none, and an empty dictionary has no key. *)
Definition content_type_key (metadata : option MetadataDict) : Value :=
  match metadata with
  | Some d =>
      match d !! "content_type"%string with
      | Some content_type => content_type
      | None => VStr "unknown"
      end
  | None => VStr "unknown"
  end.

(** [results] is [results["metadatas"]] of [collection.get], or [None]
    when the call raises: the warning is printed and the counts are
    empty. *)
Definition _get_content_type_counts
    (results : option (list (option MetadataDict))) : Counts :=
  match results with
  | Some metadatas =>
      foldl (λ content_type_counts metadata,
               count_one content_type_counts (content_type_key metadata))
        [] metadatas
  | None => []
  end.

(** *** src/query_chromadb.py: get_collection_stats *)

Inductive stats_exn : Type :=
| StatsTypeError
| StatsKeyError (key : string).

(** The body of [for meta in sample['metadatas']]: subscripting [None]
    raises [TypeError], a missing key [KeyError]. *)
Definition stats_step (acc : stats_exn + Counts) (meta : option MetadataDict)
  : stats_exn + Counts :=
  match acc with
  | inl e => inl e
  | inr content_type_counts =>
      match meta with
      | None => inl StatsTypeError
      | Some d =>
          match d !! "content_type"%string with
          | None => inl (StatsKeyError "content_type")
          | Some ctype => inr (count_one content_type_counts ctype)
          end
      end
  end.

Record CollectionStats : Type := {
  stats_total_documents : Z;
  stats_collection_name : string;
  stats_content_type_distribution : Counts;
  stats_sample_size : Z
}.

(** [get_collection_stats]; [collection_count] is [self.collection.count()]
    and [collection_get limit] the metadatas of
    [self.collection.get(limit=limit)]. *)
Definition get_collection_stats (COLLECTION_NAME : string)
    (collection_count : Z)
    (collection_get : Z → list (option MetadataDict))
  : stats_exn + CollectionStats :=
  let total_count := collection_count in
  let sample_size := Z.min 1000 total_count in
  match foldl stats_step (inr []) (collection_get sample_size) with
  | inl e => inl e
  | inr content_type_counts =>
      inr {| stats_total_documents := total_count;
             stats_collection_name := COLLECTION_NAME;
             stats_content_type_distribution := content_type_counts;
             stats_sample_size := sample_size |}
  end.

(** ** src/ingest_to_chromadb.py: ingest_to_chromadb from the client on *)

(** What the function does to the client, and prints, between
    [# Get or create collection] and [# Prepare data]. *)
Inductive ClientEvent : Type :=
| DeleteCollection (name : string) (raised : bool)
| PrintDeleted (name : string)
| GetOrCreateCollection (name : string) (description : string)
| PrintCollectionReady (name : string)
| PrintExistingDocuments (count : Z).

(** [config.COLLECTION_NAME] after [if collection_name: ...]. *)
Definition effective_collection_name (collection_name : option string)
  : string :=
  match collection_name with
  | Some (String c s) => String c s
  | _ => ChromaDBConfig.COLLECTION_NAME ChromaDBConfig.default
  end.

Section IngestionClient.
(** The Vector Index Service: the state of the client,
    [client.delete_collection] (the state after the call, and whether it
    raised), [client.get_or_create_collection] (the state after the call and
    the collection, by name and description; the embedding function is
    the same in every call) and the methods of a collection. *)
Context {Client Collection : Type}.
Variable delete_collection : Client → string → Client * bool.
Variable get_or_create_collection :
  Client → string → string → Client * Collection.
Variable collection_add :
  Collection → list string → list str → list MetadataDict →
  Collection * option string.
Variable collection_count : Collection → Z.

(** [if reset: try: client.delete_collection(...) except Exception: pass] *)
Definition reset_collection (client : Client) (COLLECTION_NAME : string)
    (reset : bool) : Client * list ClientEvent :=
  if reset then
    match delete_collection client COLLECTION_NAME with
    | (client, false) =>
        (client, [DeleteCollection COLLECTION_NAME false;
                  PrintDeleted COLLECTION_NAME])
    | (client, true) => (client, [DeleteCollection COLLECTION_NAME true])
    end
  else (client, []).

(** [# Get or create collection]; [json_name] is [Path(json_path).name]. *)
Definition open_collection (client : Client) (COLLECTION_NAME : string)
    (json_name : string) (reset : bool)
  : Client * Collection * list ClientEvent :=
  let '(client, trace) := reset_collection client COLLECTION_NAME reset in
  let description := ("RAG chunks from " ++ json_name)%string in
  let '(client, collection) :=
    get_or_create_collection client COLLECTION_NAME description in
  (client, collection,
   trace ++ [GetOrCreateCollection COLLECTION_NAME description;
             PrintCollectionReady COLLECTION_NAME;
             PrintExistingDocuments (collection_count collection)]).

(** [ingest_to_chromadb] from the client on, for a file whose chunks carry
    every key that [prepare_chunk_data] reads: the client after the
    collection was obtained, what was done to obtain it, and the run of
    [ingest_to_chromadb] above on that collection. *)
Definition ingest_to_chromadb_from_client (client : Client)
    (json_name : string) (chunks : list Chunk)
    (collection_name : option string) (reset : bool)
    (include_types exclude_types : option (gset string))
    (batch_size : option Z)
  : Client * list ClientEvent * (Collection * list Event * unit) :=
  let '(client, collection, setup) :=
    open_collection client (effective_collection_name collection_name)
      json_name reset in
  (client, setup,
   ingest_to_chromadb collection_add collection_count collection chunks
     collection_name include_types exclude_types batch_size).
End IngestionClient.

(** The calls of [delete_collection] in a trace. *)
Definition is_delete (e : ClientEvent) : bool :=
  match e with
  | DeleteCollection _ _ => true
  | _ => false
  end.

(** A sample client: the collections by name; deleting a collection that
    does not exist raises, and a collection is created empty. *)
Definition sample_delete_collection (client : list (string * list string))
    (name : string) : list (string * list string) * bool :=
  if existsb (λ c, String.eqb c.1 name) client
  then (List.filter (λ c, negb (String.eqb c.1 name)) client, false)
  else (client, true).

Definition sample_get_or_create_collection
    (client : list (string * list string)) (name description : string)
  : list (string * list string) * list string :=
  match List.find (λ c, String.eqb c.1 name) client with
  | Some c => (client, c.2)
  | None => (client ++ [(name, [])], [])
  end.

Definition sample_client : list (string * list string) :=
  [("docling_rag_chunks"%string, ["chunk_7"%string; "chunk_8"%string])].

(** ** Notions used in the statements *)

(** [k] is the first sentence end met when scanning down from [hi] to just
    above [lo]. *)
Definition breaks_at (text : str) (lo hi k : Z) : Prop :=
  lo < k ≤ hi
  ∧ (∃ c, getitem text k = Some c ∧ sentence_end c = true)
  ∧ ∀ j, k < j ≤ hi → ∃ c, getitem text j = Some c ∧ sentence_end c = false.

(** The documented precondition of the segmenter. *)
Definition valid_configuration (chunk_size overlap : Z) : Prop :=
  0 < chunk_size ∧ 0 ≤ overlap < chunk_size.

(** [n] copies of a string literal. *)
Definition rep (n : nat) (s : string) : str := mjoin (replicate n (py_str s)).

(** No character of the text is a sentence end, or whitespace. *)
Definition no_sentence_end (text : str) : bool :=
  forallb (λ c, negb (sentence_end c)) text.

Definition no_whitespace (text : str) : bool :=
  forallb (λ c, negb (isspace c)) text.

(** Sample texts: 1000 letters, a full stop and 500 more letters; three
    short sentences. *)
Definition text_full_stop_at_cut : str :=
  rep 1000 "a" ++ py_str "." ++ rep 500 "a".

Definition text_three_sentences : str := py_str "aaaa. bbbb. cccc".

(** Sample items: a table of 5000 characters, a table whose markdown is
    blank, and a document index of 2400 characters. *)
Definition table_item (markdown : str) : DocItem :=
  {| item_text := None;
     item_export_to_markdown := Some (Some markdown);
     item_label := Some "table"%string;
     item_prov := [Some 3] |}.

Definition document_index_item : DocItem :=
  {| item_text := None;
     item_export_to_markdown := Some (Some (rep 2400 "a"));
     item_label := Some "document_index"%string;
     item_prov := [Some 2] |}.

(** The single chunk made of an item that is not split. *)
Definition whole_chunk (src : string) (item : DocItem) (item_text : str)
    (chunk_id : Z) : Chunk :=
  {| chunk_id := IntId chunk_id;
     text := strip item_text;
     metadata := {| source := src;
                    content_type := default "text"%string (item_label item);
                    page := first_page_no (item_prov item);
                    chunk_index := 0;
                    total_chunks := 1;
                    is_partial := false |} |}.



(** The contract of [collection.query] that the ceiling relies on: no more
    than [n_results] results for a query text. *)
Definition honours_n_results {Distance} (self : ChromaDBQuerier Distance)
  : Prop :=
  ∀ req, Forall (λ ids, len ids ≤ Z.max 0 (n_results req))
           (res_ids (collection_query self req)).

(** A sample querier over a collection of 80 chunks, answering with the
    first [n_results] of them. *)
Definition sample_query (req : QueryRequest) : QueryResult unit :=
  let found := take (Z.to_nat (n_results req)) (seq 0 80) in
  {| res_ids := [(λ k, format_chunk_id (IntId (Z.of_nat k))) <$> found];
     res_documents := [(λ _, py_str "text") <$> found];
     res_metadatas := [(λ _, ∅) <$> found];
     res_distances := [(λ _, tt) <$> found] |}.

Definition sample_querier : ChromaDBQuerier unit :=
  {| config := ChromaDBConfig.default; collection_query := sample_query |}.

(** The cursors and boundaries of a run of the loop, one pair per chunk:
    the first pair starts at [start], each next one starts [overlap]
    characters before the boundary of the one before, inside the text, and
    the last boundary less [overlap] is at or after the end of the text. *)
Fixpoint chained (length_ overlap start : Z) (spans : list (Z * Z)) : Prop :=
  match spans with
  | [] => False
  | (s, e) :: rest =>
      s = start ∧ start < e
      ∧ match rest with
        | [] => length_ ≤ e - overlap
        | _ :: _ =>
            0 ≤ e - overlap < length_
            ∧ chained length_ overlap (e - overlap) rest
        end
  end.

(** The chunk cut between a cursor and a boundary. *)
Definition chunk_of (text : str) (span : Z * Z) : str :=
  strip (slice text span.1 span.2).

(** One of the chunks made of an item that is split. *)
Definition partial_chunk (src ctype : string) (page_num : option Z)
    (total chunk_id i : Z) (text_chunk : str) : Chunk :=
  {| chunk_id := IntId chunk_id;
     text := text_chunk;
     metadata := {| source := src;
                    content_type := ctype;
                    page := page_num;
                    chunk_index := i;
                    total_chunks := total;
                    is_partial := true |} |}.

(** The items that the loop of [extract_rag_chunks] passes over: the
    export to markdown raised, or there is no text, or only whitespace. *)
Definition item_is_skipped (item : DocItem) : bool :=
  match get_item_text item with
  | Some (Some item_text) =>
      bool_decide (item_text = []) || bool_decide (strip item_text = [])
  | _ => true
  end.

(** What every chunk of [extract_rag_chunks] satisfies. *)
Definition chunk_invariant (src : string) (c : Chunk) : Prop :=
  source (metadata c) = src
  ∧ 0 ≤ chunk_index (metadata c) < total_chunks (metadata c)
  ∧ strip (text c) = text c
  ∧ (is_partial (metadata c) = false →
     chunk_index (metadata c) = 0 ∧ total_chunks (metadata c) = 1
     ∧ text c ≠ [])
  ∧ (is_partial (metadata c) = true →
     content_type (metadata c) ≠ "table"%string).

(** A sample document: a sentence, a blank table, a document index of 2400
    characters and a small table. *)
Definition sample_items : list DocItem :=
  [ {| item_text := Some (py_str "Revenue grew.");
       item_export_to_markdown := None;
       item_label := Some "text"%string;
       item_prov := [None; Some 1] |};
    table_item (py_str "   ");
    document_index_item;
    table_item (py_str "| a | b |") ].

(** The items that [extract_tables_for_rag] takes. *)
Definition is_table_item (item : DocItem) : bool :=
  bool_decide (item_label item = Some "table"%string).

(** A sample [str(item)]. *)
Definition sample_item_str (item : DocItem) : str := py_str "TableItem".

Definition sample_chunks : list Chunk :=
  [sample_chunk 1; sample_chunk 2; sample_chunk 3].

(** The sum of the counts of a dictionary. *)
Definition counts_total (counts : Counts) : Z := foldr Z.add 0 (snd <$> counts).

(** The keys of a dictionary of counts. *)
Definition counts_keys (counts : Counts) : list Value :=
  (λ item, as_key item.1) <$> counts.

(** How many of [keys] are equal to [key]. *)
Definition occurrences (key : Value) (keys : list Value) : Z :=
  len (List.filter (λ k, key_eqb k key) keys).

(** Two sample runs with [reset] on the sample client, whose collection
    holds two documents: one where no chunk passes the filters, one with a
    negative batch size. *)
Definition sample_reset_run_nothing
  : list (string * list string) * list ClientEvent
    * (list string * list Event * unit) :=
  ingest_to_chromadb_from_client sample_delete_collection
    sample_get_or_create_collection sample_add len sample_client "rag.json"
    sample_chunks None true (Some {[ "table"%string ]}) None None.

Definition sample_reset_run_negative
  : list (string * list string) * list ClientEvent
    * (list string * list Event * unit) :=
  ingest_to_chromadb_from_client sample_delete_collection
    sample_get_or_create_collection sample_add len sample_client "rag.json"
    sample_chunks None true None None (Some (-5)).

(** A document of a sample that [get_collection_stats] can count: it has
    metadata, and the metadata has a [content_type]. *)
Definition has_content_type (meta : option MetadataDict) : Prop :=
  ∃ d, meta = Some d ∧ is_Some (d !! "content_type"%string).





(** * Properties *)

(** ** Python values *)

Lemma len_nonneg {A} (l : list A) : 0 ≤ len l.
Proof. unfold len. lia. Qed.

Lemma len_app {A} (l k : list A) : len (l ++ k) = len l + len k.
Proof. unfold len. rewrite length_app. lia. Qed.

Lemma getitem_Some {A} (s : list A) (i : Z) :
  0 ≤ i < len s → getitem s i = s !! Z.to_nat i.
Proof.
  intros [Hlo Hhi]. unfold getitem.
  pose proof (len_nonneg s).
  destruct (Z.ltb_spec i (- len s)); [lia|].
  destruct (Z.leb_spec (len s) i); [lia|]. simpl.
  destruct (Z.ltb_spec i 0); [lia|]. reflexivity.
Qed.

Lemma getitem_elem_of {A} (s : list A) (i : Z) (c : A) :
  getitem s i = Some c → c ∈ s.
Proof.
  unfold getitem. case_match; [discriminate|].
  intros Hc. eapply list_elem_of_lookup_2, Hc.
Qed.

Lemma getitem_is_Some {A} (s : list A) (i : Z) :
  - len s ≤ i < len s → is_Some (getitem s i).
Proof.
  intros [Hlo Hhi]. unfold getitem.
  destruct (Z.ltb_spec i (- len s)); [lia|].
  destruct (Z.leb_spec (len s) i); [lia|]. simpl.
  apply lookup_lt_is_Some. unfold len in *.
  destruct (Z.ltb_spec i 0); lia.
Qed.

(** A slice between bounds in range is the plain sub-list. *)
Lemma slice_in_range {A} (s : list A) (lo hi : Z) :
  0 ≤ lo → 0 ≤ hi →
  slice s lo hi =
  take (Z.to_nat (Z.min hi (len s) - Z.min lo (len s))) (drop (Z.to_nat lo) s).
Proof.
  intros Hlo Hhi. unfold slice, adjust_index.
  destruct (Z.ltb_spec lo 0); [lia|]. destruct (Z.ltb_spec hi 0); [lia|].
  destruct (Z.le_gt_cases lo (len s)) as [Hle|Hgt].
  - rewrite (Z.min_l lo) by lia. reflexivity.
  - rewrite (Z.min_r lo) by lia.
    rewrite !drop_ge by (unfold len in *; lia). by rewrite !take_nil.
Qed.

Lemma len_slice_in_range {A} (s : list A) (lo hi : Z) :
  0 ≤ lo ≤ hi → hi ≤ len s → len (slice s lo hi) = hi - lo.
Proof.
  intros Hlo Hhi. rewrite slice_in_range by lia.
  unfold len in *. rewrite length_take, length_drop. lia.
Qed.

(** Negative or not, ordered bounds give a slice no longer than their
    distance. *)
Lemma len_slice_le {A} (s : list A) (lo hi : Z) :
  lo ≤ hi → len (slice s lo hi) ≤ hi - lo.
Proof.
  intros Hle. unfold slice, adjust_index, len. rewrite length_take, length_drop.
  destruct (Z.ltb_spec lo 0); destruct (Z.ltb_spec hi 0); lia.
Qed.

Lemma slice_elem_of {A} (s : list A) (lo hi : Z) (c : A) :
  c ∈ slice s lo hi → c ∈ s.
Proof.
  unfold slice. intros H.
  eapply (subseteq_drop (Z.to_nat _) s), (subseteq_take (Z.to_nat _)), H.
Qed.

(** *** strip *)

Lemma lstrip_length (s : str) : (length (lstrip s) ≤ length s)%nat.
Proof. induction s as [|c s IH]; simpl; [lia|]. destruct (isspace c); simpl; lia. Qed.

Lemma strip_length (s : str) : (length (strip s) ≤ length s)%nat.
Proof.
  unfold strip, rstrip. rewrite length_reverse.
  etrans; [apply lstrip_length|]. rewrite length_reverse. apply lstrip_length.
Qed.

Lemma len_strip_le (s : str) : len (strip s) ≤ len s.
Proof. unfold len. pose proof (strip_length s). lia. Qed.

Lemma lstrip_no_space (s : str) :
  Forall (λ c, isspace c = false) s → lstrip s = s.
Proof. destruct 1 as [|c s Hc _]; simpl; [done|]. by rewrite Hc. Qed.

Lemma strip_no_space (s : str) :
  Forall (λ c, isspace c = false) s → strip s = s.
Proof.
  intros H. unfold strip, rstrip. rewrite (lstrip_no_space s H).
  rewrite lstrip_no_space by (by apply Forall_reverse).
  apply reverse_involutive.
Qed.

Lemma lstrip_nil_iff (s : str) :
  lstrip s = [] ↔ Forall (λ c, isspace c = true) s.
Proof.
  induction s as [|c s IH]; simpl; [by split|].
  destruct (isspace c) eqn:Hc.
  - rewrite IH. split; [by constructor|by inversion 1].
  - split; [discriminate|]. inversion 1; congruence.
Qed.

Lemma lstrip_suffix (s : str) : lstrip s `suffix_of` s.
Proof.
  induction s as [|c s IH]; simpl; [done|].
  destruct (isspace c); [by apply suffix_cons_r|done].
Qed.

(** A chunk is empty exactly when its slice held nothing but whitespace. *)
Lemma strip_nil_iff (s : str) :
  strip s = [] ↔ Forall (λ c, isspace c = true) s.
Proof.
  unfold strip, rstrip. split.
  - intros H. apply (f_equal reverse) in H.
    rewrite reverse_involutive in H. change (reverse []) with (@nil ascii) in H.
    apply lstrip_nil_iff in H. rewrite Forall_reverse in H.
    destruct (lstrip s) as [|c r] eqn:E; [by apply lstrip_nil_iff|].
    (* the first character kept by lstrip is not a space *)
    exfalso. clear -E H. induction s as [|d s IH]; simpl in E; [done|].
    destruct (isspace d) eqn:Hd; [by apply IH|].
    simplify_eq. inversion H; congruence.
  - intros H. apply lstrip_nil_iff in H. by rewrite H.
Qed.

Lemma strip_nonempty_iff (s : str) :
  strip s ≠ [] ↔ ∃ c, c ∈ s ∧ isspace c = false.
Proof.
  rewrite strip_nil_iff, <- Exists_Forall_neg, Exists_exists.
  - split; intros (c & ? & ?); exists c; split; try done; by destruct (isspace c).
  - intros c. destruct (isspace c); [by left|by right].
Qed.

(** ** chunk_text: the scan for a sentence end *)

Lemma sentence_break_None (text : str) (n : nat) (i : Z) :
  (∀ j, i - Z.of_nat n < j ≤ i →
        ∃ c, getitem text j = Some c ∧ sentence_end c = false) →
  sentence_break text n i = Ok None.
Proof.
  revert i. induction n as [|n IH]; intros i H; simpl; [done|].
  destruct (H i) as (c & -> & ->); [lia|].
  apply IH. intros j Hj. apply H. lia.
Qed.

Lemma sentence_break_found (text : str) (n : nat) (i k : Z) :
  breaks_at text (i - Z.of_nat n) i k →
  sentence_break text n i = Ok (Some (k + 1)).
Proof.
  unfold breaks_at. revert i.
  induction n as [|n IH]; intros i (Hk & (c & Hc & Hend) & Habove).
  - lia.
  - simpl. destruct (decide (k = i)) as [->|Hne].
    + by rewrite Hc, Hend.
    + destruct (Habove i) as (d & -> & ->); [lia|].
      apply IH. split; [lia|]. split; [by exists c|].
      intros j Hj. apply Habove. lia.
Qed.

Lemma sentence_break_Some (text : str) (n : nat) (i e : Z) :
  sentence_break text n i = Ok (Some e) →
  breaks_at text (i - Z.of_nat n) i (e - 1).
Proof.
  unfold breaks_at. revert i. induction n as [|n IH]; intros i; simpl; [done|].
  destruct (getitem text i) as [c|] eqn:Hc; [|done].
  destruct (sentence_end c) eqn:Hend.
  - intros [= <-]. replace (i + 1 - 1) with i by lia.
    split; [lia|]. split; [by exists c|]. intros j Hj. lia.
  - intros H. apply IH in H as (Hk & Hfound & Habove).
    split; [lia|]. split; [done|].
    intros j Hj. destruct (decide (j = i)) as [->|Hne]; [by exists c|].
    apply Habove. lia.
Qed.

(** Inside the text no index is out of range. *)
Lemma sentence_break_no_raise (text : str) (n : nat) (i : Z) :
  0 ≤ i - Z.of_nat n → i < len text →
  ∃ r, sentence_break text n i = Ok r.
Proof.
  revert i. induction n as [|n IH]; intros i Hlo Hhi; simpl; [eauto|].
  destruct (getitem_is_Some text i) as [c ->];
    [pose proof (len_nonneg text); lia|].
  destruct (sentence_end c); [eauto|]. apply IH; lia.
Qed.

(** In a text without sentence ends the scan falls through, wherever it
    runs inside the text. *)
Lemma sentence_break_no_sentence_end (text : str) (n : nat) (i : Z) :
  Forall (λ c, sentence_end c = false) text →
  0 ≤ i - Z.of_nat n → i < len text →
  sentence_break text n i = Ok None.
Proof.
  intros Hno Hlo Hhi. apply sentence_break_None. intros j Hj.
  destruct (getitem_is_Some text j) as [c Hc]; [pose proof (len_nonneg text); lia|].
  exists c. split; [done|].
  rewrite Forall_forall in Hno. eapply Hno, getitem_elem_of, Hc.
Qed.

(** ** chunk_text: the boundary of one iteration *)

Lemma range_down_bound (chunk_size start : Z) :
  0 ≤ chunk_size →
  start + chunk_size
    - Z.of_nat (range_down (start + chunk_size)
                  (Z.max (start + chunk_size - 100) start))
  = Z.max (start + chunk_size - 100) start.
Proof. intros H. unfold range_down. lia. Qed.

(** Either the raw cut, or the position after the sentence end found in
    the window. *)
Lemma boundary_spec (text : str) (chunk_size start e : Z) :
  0 ≤ chunk_size →
  boundary text chunk_size start = Ok e →
  e = start + chunk_size
  ∨ (start + chunk_size < len text
     ∧ breaks_at text (Z.max (start + chunk_size - 100) start)
                 (start + chunk_size) (e - 1)).
Proof.
  intros Hcs. unfold boundary.
  destruct (Z.ltb_spec (start + chunk_size) (len text)) as [Hlt|Hge];
    [|intros [= <-]; by left].
  destruct (sentence_break _ _ _) as [[e'|]|] eqn:Hsb; intros [= <-];
    [|by left].
  right. split; [done|].
  apply sentence_break_Some in Hsb. by rewrite range_down_bound in Hsb.
Qed.

Lemma boundary_found (text : str) (chunk_size start k : Z) :
  0 ≤ chunk_size →
  start + chunk_size < len text →
  breaks_at text (Z.max (start + chunk_size - 100) start)
            (start + chunk_size) k →
  boundary text chunk_size start = Ok (k + 1).
Proof.
  intros Hcs Hlt Hk. unfold boundary.
  destruct (Z.ltb_spec (start + chunk_size) (len text)); [|lia].
  rewrite (sentence_break_found _ _ _ k); [done|].
  by rewrite range_down_bound.
Qed.

(** The boundary lies after the cursor, at most one character past the
    raw cut and less than 100 characters before it. *)
Lemma boundary_bounds (text : str) (chunk_size start e : Z) :
  0 < chunk_size →
  boundary text chunk_size start = Ok e →
  start + 1 ≤ e ≤ start + chunk_size + 1
  ∧ start + chunk_size - 98 ≤ e.
Proof.
  intros Hcs H. apply boundary_spec in H as [->|(_ & Hk & _)]; lia.
Qed.

(** With the cursor at or after the start of the text no index is out of
    range. *)
Lemma boundary_no_raise (text : str) (chunk_size start : Z) :
  0 ≤ chunk_size → 0 ≤ start →
  ∃ e, boundary text chunk_size start = Ok e.
Proof.
  intros Hcs Hstart. unfold boundary.
  destruct (Z.ltb_spec (start + chunk_size) (len text)) as [Hlt|Hge]; [|eauto].
  destruct (sentence_break_no_raise text
              (range_down (start + chunk_size)
                 (Z.max (start + chunk_size - 100) start))
              (start + chunk_size)) as [[e|] ->]; eauto.
  rewrite range_down_bound; lia.
Qed.

Lemma boundary_no_sentence_end (text : str) (chunk_size start : Z) :
  Forall (λ c, sentence_end c = false) text →
  0 ≤ chunk_size → 0 ≤ start →
  boundary text chunk_size start = Ok (start + chunk_size).
Proof.
  intros Hno Hcs Hstart. unfold boundary.
  destruct (Z.ltb_spec (start + chunk_size) (len text)) as [Hlt|Hge]; [|done].
  rewrite sentence_break_no_sentence_end; [done..| |done].
  rewrite range_down_bound; lia.
Qed.

(** ** chunk_text: the while loop *)

(** One iteration. *)
Lemma chunk_loop_step (fuel : nat) (text : str) (chunk_size overlap : Z)
    (start e : Z) (chunks : list str) :
  start < len text →
  boundary text chunk_size start = Ok e →
  chunk_loop (S fuel) text chunk_size overlap start chunks =
  if len text <=? e - overlap
  then Some (Ok (chunks ++ [strip (slice text start e)]))
  else chunk_loop fuel text chunk_size overlap (e - overlap)
         (chunks ++ [strip (slice text start e)]).
Proof.
  intros Hlt Hb. cbn [chunk_loop]. rewrite Hb.
  by destruct (Z.ltb_spec start (len text)); [|lia].
Qed.

(** The loop is left when the cursor is at or after the end. *)
Lemma chunk_loop_done (fuel : nat) (text : str) (chunk_size overlap : Z)
    (start : Z) (chunks : list str) :
  len text ≤ start →
  chunk_loop (S fuel) text chunk_size overlap start chunks = Some (Ok chunks).
Proof.
  intros Hge. cbn [chunk_loop].
  by destruct (Z.ltb_spec start (len text)); [lia|].
Qed.

(** More fuel does not change an answer. *)
Lemma chunk_loop_fuel_mono (fuel fuel' : nat) (text : str)
    (chunk_size overlap start : Z) (chunks : list str) r :
  chunk_loop fuel text chunk_size overlap start chunks = Some r →
  (fuel ≤ fuel')%nat →
  chunk_loop fuel' text chunk_size overlap start chunks = Some r.
Proof.
  revert fuel' start chunks.
  induction fuel as [|fuel IH]; intros fuel' start chunks; [done|].
  destruct fuel' as [|fuel']; [lia|]. cbn [chunk_loop]. intros H Hle.
  destruct (start <? len text); [|done].
  destruct (boundary text chunk_size start) as [e|]; [|done].
  destruct (len text <=? e - overlap); [done|].
  apply IH; [done|lia].
Qed.

Lemma chunk_text_fuel_mono (fuel fuel' : nat) (text : str)
    (chunk_size overlap : Z) r :
  chunk_text fuel text chunk_size overlap = Some r →
  (fuel ≤ fuel')%nat →
  chunk_text fuel' text chunk_size overlap = Some r.
Proof.
  unfold chunk_text. destruct (len text <=? chunk_size); [done|].
  apply chunk_loop_fuel_mono.
Qed.

(** When the boundary is only [overlap] characters after the cursor, the
    next cursor is the same one, and the loop never ends. *)
Lemma chunk_loop_no_progress (text : str) (chunk_size overlap start : Z) :
  start < len text →
  boundary text chunk_size start = Ok (start + overlap) →
  ∀ fuel chunks, chunk_loop fuel text chunk_size overlap start chunks = None.
Proof.
  intros Hlt Hb fuel. induction fuel as [|fuel IH]; intros chunks; [done|].
  rewrite (chunk_loop_step _ _ _ _ _ _ _ Hlt Hb).
  replace (start + overlap - overlap) with start by lia.
  destruct (Z.leb_spec (len text) start); [lia|]. apply IH.
Qed.

(** A sentence end found from a cursor is found again, at the same place,
    from any earlier cursor whose window still reaches it. *)
Lemma boundary_shift (text : str) (chunk_size start start' k : Z) :
  0 ≤ chunk_size →
  start + chunk_size < len text →
  breaks_at text (Z.max (start + chunk_size - 100) start)
            (start + chunk_size) k →
  start' ≤ start → k ≤ start' + chunk_size →
  boundary text chunk_size start' = Ok (k + 1).
Proof.
  intros Hcs Hlt (Hk & Hfound & Habove) Hle Hreach.
  apply boundary_found; [done|lia|].
  split; [lia|]. split; [done|].
  intros j Hj. apply Habove. lia.
Qed.

(** Under the documented precondition a cursor that falls before the
    start of the text stays there for ever. *)
Lemma chunk_loop_negative_cursor (text : str) (chunk_size overlap : Z)
    (start e : Z) :
  valid_configuration chunk_size overlap →
  0 ≤ start < len text →
  boundary text chunk_size start = Ok e →
  e - overlap < 0 →
  ∀ fuel chunks,
    chunk_loop fuel text chunk_size overlap (e - overlap) chunks = None.
Proof.
  intros (Hcs & Hov) Hstart Hb Hneg.
  pose proof (len_nonneg text).
  apply chunk_loop_no_progress; [lia|].
  apply boundary_spec in Hb as [->|(Hlt & Hk)]; [lia| |lia].
  replace (e - overlap + overlap) with (e - 1 + 1) by lia.
  eapply boundary_shift; [| |exact Hk| |]; lia.
Qed.

(** What holds of every chunk cut at a cursor inside the text holds of
    every chunk returned. *)
Lemma chunk_loop_chunks (P : str → Prop) (text : str)
    (chunk_size overlap : Z) :
  valid_configuration chunk_size overlap →
  (∀ start e, 0 ≤ start < len text →
              boundary text chunk_size start = Ok e →
              P (strip (slice text start e))) →
  ∀ fuel start chunks r,
    0 ≤ start → Forall P chunks →
    chunk_loop fuel text chunk_size overlap start chunks = Some (Ok r) →
    Forall P r.
Proof.
  intros Hvalid HP fuel.
  induction fuel as [|fuel IH]; intros start chunks r Hstart Hchunks; [done|].
  destruct (Z.lt_ge_cases start (len text)) as [Hlt|Hge].
  2: { rewrite chunk_loop_done by done. by intros [= <-]. }
  destruct (boundary text chunk_size start) as [e|x] eqn:Hb.
  2: { cbn [chunk_loop]. rewrite Hb.
       by destruct (Z.ltb_spec start (len text)); [|lia]. }
  rewrite (chunk_loop_step _ _ _ _ _ _ _ Hlt Hb).
  assert (Forall P (chunks ++ [strip (slice text start e)])) as Hchunks'.
  { apply Forall_app. split; [done|]. apply Forall_singleton, HP; [lia|done]. }
  destruct (len text <=? e - overlap); [by intros [= <-]|].
  destruct (Z.lt_ge_cases (e - overlap) 0) as [Hneg|Hpos].
  - by rewrite (chunk_loop_negative_cursor _ _ _ start e).
  - by apply IH.
Qed.

(** The loop ends, without an exception, as soon as the overlap leaves
    room for the 99 characters a boundary can move back. *)
Lemma chunk_loop_terminates (text : str) (chunk_size overlap : Z) :
  0 ≤ overlap → overlap + 99 ≤ chunk_size →
  ∀ (n : nat) start chunks,
    0 ≤ start → len text - start ≤ Z.of_nat n →
    ∃ r, chunk_loop (S n) text chunk_size overlap start chunks = Some (Ok r).
Proof.
  intros Hov Hcs n.
  induction n as [|n IH]; intros start chunks Hstart Hn.
  - rewrite chunk_loop_done by lia. eauto.
  - destruct (Z.lt_ge_cases start (len text)) as [Hlt|Hge].
    2: { rewrite chunk_loop_done by lia. eauto. }
    destruct (boundary_no_raise text chunk_size start) as [e Hb]; [lia..|].
    rewrite (chunk_loop_step _ _ _ _ _ _ _ Hlt Hb).
    destruct (len text <=? e - overlap); [eauto|].
    apply boundary_bounds in Hb as [_ Hb]; [|lia].
    apply IH; lia.
Qed.

Lemma no_sentence_end_Forall (text : str) :
  no_sentence_end text = true → Forall (λ c, sentence_end c = false) text.
Proof.
  unfold no_sentence_end. rewrite forallb_forall, Forall_forall.
  intros H c Hc. apply list_elem_of_In, H in Hc. by destruct (sentence_end c).
Qed.

Lemma no_whitespace_Forall (text : str) :
  no_whitespace text = true → Forall (λ c, isspace c = false) text.
Proof.
  unfold no_whitespace. rewrite forallb_forall, Forall_forall.
  intros H c Hc. apply list_elem_of_In, H in Hc. by destruct (isspace c).
Qed.

Lemma slice_no_whitespace (text : str) (lo hi : Z) :
  Forall (λ c, isspace c = false) text →
  strip (slice text lo hi) = slice text lo hi.
Proof.
  intros H. apply strip_no_space. rewrite Forall_forall in *.
  intros c Hc. eapply H, slice_elem_of, Hc.
Qed.

(** ** chunk_text: the claims *)

(** C1 (the code at a failing input).  With chunk_size 3 and overlap 2,
    which satisfy the documented precondition, the text [a.aaaa] keeps the
    loop running for ever: the boundary snaps back to just after the full
    stop, the next cursor is 2 - 2 = 0 again, and no amount of fuel yields
    an answer. *)
Theorem chunk_text_diverges :
  valid_configuration 3 2
  ∧ ∀ fuel, chunk_text fuel (py_str "a.aaaa") 3 2 = None.
Proof.
  split; [unfold valid_configuration; lia|].
  intros fuel. unfold chunk_text. change (len (py_str "a.aaaa") <=? 3) with false.
  cbv iota. by apply chunk_loop_no_progress.
Qed.

(** The loop of [chunk_text] does end, without an exception, whenever
    [overlap + 99 <= chunk_size]; the default configuration (1000, 200) is
    such a one. *)
Theorem chunk_text_terminates (text : str) (chunk_size overlap : Z) :
  0 ≤ overlap → overlap + 99 ≤ chunk_size →
  ∃ chunks,
    chunk_text (S (length text)) text chunk_size overlap = Some (Ok chunks).
Proof.
  intros Hov Hcs. unfold chunk_text.
  destruct (len text <=? chunk_size); [eauto|].
  apply chunk_loop_terminates; [done..|lia|unfold len; lia].
Qed.

Lemma chunk_text_terminates_witness :
  0 ≤ 200 ∧ 200 + 99 ≤ 1000
  ∧ ∃ chunks,
      chunk_text (S (length text_full_stop_at_cut)) text_full_stop_at_cut
        1000 200 = Some (Ok chunks).
Proof.
  split; [lia|]. split; [lia|]. apply chunk_text_terminates; lia.
Defined.

(** C2 (amended).  A text of 2400 characters without sentence end, cut with
    chunk_size 1000 and overlap 200, gives exactly three chunks: the
    trimmed slices that start at characters 0, 800 and 1600; when the text
    has no whitespace their lengths are 1000, 1000 and 800. *)
Theorem chunk_text_2400 (text : str) (fuel : nat) :
  len text = 2400 → no_sentence_end text = true → (3 ≤ fuel)%nat →
  chunk_text fuel text 1000 200 =
    Some (Ok [strip (slice text 0 1000);
              strip (slice text 800 1800);
              strip (slice text 1600 2400)])
  ∧ (no_whitespace text = true →
     chunk_text fuel text 1000 200 =
       Some (Ok [slice text 0 1000; slice text 800 1800; slice text 1600 2400])
     ∧ len (slice text 0 1000) = 1000
     ∧ len (slice text 800 1800) = 1000
     ∧ len (slice text 1600 2400) = 800).
Proof.
  intros Hlen Hno Hfuel. apply no_sentence_end_Forall in Hno.
  assert (chunk_text fuel text 1000 200 =
    Some (Ok [strip (slice text 0 1000);
              strip (slice text 800 1800);
              strip (slice text 1600 2400)])) as Hrun.
  { destruct fuel as [|[|[|fuel]]]; [lia..|].
    unfold chunk_text. rewrite Hlen. change (2400 <=? 1000) with false. cbv iota.
    rewrite (chunk_loop_step _ _ _ _ _ (0 + 1000));
      [|lia|by apply boundary_no_sentence_end].
    rewrite Hlen. change (2400 <=? 0 + 1000 - 200) with false. cbv iota.
    change (0 + 1000 - 200) with 800.
    rewrite (chunk_loop_step _ _ _ _ _ (800 + 1000));
      [|lia|by apply boundary_no_sentence_end].
    rewrite Hlen. change (2400 <=? 800 + 1000 - 200) with false. cbv iota.
    change (800 + 1000 - 200) with 1600.
    rewrite (chunk_loop_step _ _ _ _ _ (1600 + 1000));
      [|lia|by apply boundary_no_sentence_end].
    rewrite Hlen. change (2400 <=? 1600 + 1000 - 200) with true. cbv iota.
    do 3 f_equal. simpl. do 2 f_equal.
    (* the last raw cut, 2600, is past the end of the text *)
    do 2 f_equal. rewrite !slice_in_range by lia. rewrite Hlen. reflexivity. }
  split; [done|]. intros Hws. apply no_whitespace_Forall in Hws.
  rewrite Hrun, !slice_no_whitespace by done.
  split; [done|]. rewrite !len_slice_in_range by lia. done.
Qed.

Lemma chunk_text_2400_witness :
  len (rep 2400 "a") = 2400 ∧ no_sentence_end (rep 2400 "a") = true
  ∧ chunk_text 3 (rep 2400 "a") 1000 200 =
      Some (Ok [strip (slice (rep 2400 "a") 0 1000);
                strip (slice (rep 2400 "a") 800 1800);
                strip (slice (rep 2400 "a") 1600 2400)]).
Proof.
  split; [reflexivity|]. split; [vm_compute; reflexivity|].
  refine (proj1 (chunk_text_2400 (rep 2400 "a") 3 _ _ _));
    [reflexivity|vm_compute; reflexivity|lia].
Defined.

(** C2 (counterexample).  On 2400 letters the third chunk starts at
    character 1600 and holds 800 characters, not 600 from character 1800
    on. *)
Lemma chunk_text_2400_counterexample :
  len (rep 2400 "a") = 2400 ∧ no_sentence_end (rep 2400 "a") = true
  ∧ ∃ chunks,
      chunk_text 3 (rep 2400 "a") 1000 200 = Some (Ok chunks)
      ∧ chunks = [slice (rep 2400 "a") 0 1000;
                  slice (rep 2400 "a") 800 1800;
                  slice (rep 2400 "a") 1600 2400]
      ∧ len <$> chunks = [1000; 1000; 800]
      ∧ len <$> chunks ≠ [1000; 1000; 600].
Proof.
  split; [reflexivity|]. split; [vm_compute; reflexivity|].
  eexists. split; [vm_compute; reflexivity|].
  split; [vm_compute; reflexivity|]. split; [vm_compute; reflexivity|].
  vm_compute. discriminate.
Qed.

(** C6 (the code at a failing input).  With the default configuration and
    a full stop right at the raw cut (index 1000), the scan starts at the
    cut itself, [range(end, ...)], and the boundary moves to 1001: the
    first chunk has 1001 characters. *)
Theorem chunk_text_exceeds_chunk_size :
  valid_configuration 1000 200
  ∧ chunk_text 2 text_full_stop_at_cut 1000 200 =
      Some (Ok [rep 1000 "a" ++ py_str ".";
                rep 199 "a" ++ py_str "." ++ rep 500 "a"])
  ∧ len (rep 1000 "a" ++ py_str ".") = 1001.
Proof.
  split; [unfold valid_configuration; lia|].
  split; vm_compute; reflexivity.
Qed.

(** What does hold: no chunk is longer than [chunk_size + 1]. *)
Theorem chunk_text_size_bound (text : str) (chunk_size overlap : Z)
    (fuel : nat) (chunks : list str) :
  valid_configuration chunk_size overlap →
  chunk_text fuel text chunk_size overlap = Some (Ok chunks) →
  Forall (λ chunk, len chunk ≤ chunk_size + 1) chunks.
Proof.
  intros Hvalid. unfold chunk_text.
  destruct (Z.leb_spec (len text) chunk_size) as [Hle|Hgt].
  - intros [= <-]. apply Forall_singleton. lia.
  - apply (chunk_loop_chunks (λ chunk, len chunk ≤ chunk_size + 1));
      [done| |done|done].
    intros start e Hstart Hb.
    apply boundary_bounds in Hb; [|by destruct Hvalid].
    etrans; [apply len_strip_le|].
    etrans; [apply len_slice_le|]; lia.
Qed.

Lemma chunk_text_size_bound_witness :
  valid_configuration 1000 200
  ∧ chunk_text 2 text_full_stop_at_cut 1000 200 =
      Some (Ok [rep 1000 "a" ++ py_str ".";
                rep 199 "a" ++ py_str "." ++ rep 500 "a"])
  ∧ Forall (λ chunk, len chunk ≤ 1000 + 1)
      [rep 1000 "a" ++ py_str "."; rep 199 "a" ++ py_str "." ++ rep 500 "a"].
Proof.
  split; [unfold valid_configuration; lia|].
  split; [vm_compute; reflexivity|].
  apply (chunk_text_size_bound text_full_stop_at_cut 1000 200 2);
    [unfold valid_configuration; lia|vm_compute; reflexivity].
Defined.

(** C4 (amended).  On a text longer than [chunk_size], under the documented
    precondition, every chunk returned is the trimmed form of a slice that
    starts inside the text and is not empty; the chunk is not empty
    exactly when that slice has a character that is not whitespace.  So
    every chunk is non-empty when the text has no whitespace. *)
Theorem chunk_text_chunks_trimmed_slices (text : str)
    (chunk_size overlap : Z) (fuel : nat) (chunks : list str) :
  valid_configuration chunk_size overlap →
  chunk_size < len text →
  chunk_text fuel text chunk_size overlap = Some (Ok chunks) →
  Forall (λ chunk,
            ∃ start end_ : Z,
              0 ≤ start < len text ∧ start < end_
              ∧ slice text start end_ ≠ []
              ∧ chunk = strip (slice text start end_)
              ∧ (chunk ≠ [] ↔
                 ∃ c, c ∈ slice text start end_ ∧ isspace c = false))
         chunks
  ∧ (no_whitespace text = true → Forall (λ chunk, chunk ≠ []) chunks).
Proof.
  intros Hvalid Hlong Hrun.
  assert (Forall (λ chunk,
            ∃ start end_ : Z,
              0 ≤ start < len text ∧ start < end_
              ∧ slice text start end_ ≠ []
              ∧ chunk = strip (slice text start end_)
              ∧ (chunk ≠ [] ↔
                 ∃ c, c ∈ slice text start end_ ∧ isspace c = false))
            chunks) as Hall.
  { revert Hrun. unfold chunk_text.
    destruct (Z.leb_spec (len text) chunk_size) as [Hle|Hgt]; [lia|].
    apply chunk_loop_chunks; [done| |done|done].
    intros start e Hstart Hb. exists start, e.
    apply boundary_bounds in Hb; [|by destruct Hvalid].
    split; [done|]. split; [lia|]. split.
    - intros Hnil. apply (f_equal len) in Hnil. revert Hnil.
      rewrite slice_in_range by lia. unfold len.
      rewrite length_take, length_drop. simpl. unfold len in Hstart. lia.
    - split; [done|]. apply strip_nonempty_iff. }
  split; [done|]. intros Hws. apply no_whitespace_Forall in Hws.
  eapply Forall_impl; [exact Hall|]. simpl.
  intros chunk (start & e & _ & _ & Hne & -> & _).
  by rewrite slice_no_whitespace.
Qed.

Lemma chunk_text_chunks_trimmed_slices_witness :
  valid_configuration 8 2
  ∧ 8 < len text_three_sentences
  ∧ chunk_text 5 text_three_sentences 8 2 =
      Some (Ok [py_str "aaaa."; py_str "a. bbbb."; py_str "b. cccc";
                py_str "c"])
  ∧ Forall (λ chunk,
              ∃ start end_ : Z,
                0 ≤ start < len text_three_sentences ∧ start < end_
                ∧ slice text_three_sentences start end_ ≠ []
                ∧ chunk = strip (slice text_three_sentences start end_)
                ∧ (chunk ≠ [] ↔
                   ∃ c, c ∈ slice text_three_sentences start end_
                        ∧ isspace c = false))
      [py_str "aaaa."; py_str "a. bbbb."; py_str "b. cccc"; py_str "c"].
Proof.
  split; [unfold valid_configuration; lia|].
  split; [vm_compute; reflexivity|].
  split; [vm_compute; reflexivity|].
  apply (chunk_text_chunks_trimmed_slices text_three_sentences 8 2 5);
    [unfold valid_configuration; lia|vm_compute; reflexivity
    |vm_compute; reflexivity].
Defined.

(** C4 (counterexample).  With the default configuration a text of 1500
    spaces is cut into two chunks, both empty once trimmed. *)
Lemma chunk_text_empty_chunks_counterexample :
  valid_configuration 1000 200
  ∧ chunk_text 2 (rep 1500 " ") 1000 200 = Some (Ok [[]; []]).
Proof.
  split; [unfold valid_configuration; lia|]. vm_compute; reflexivity.
Qed.

(** With [0 < chunk_size <= overlap] the cursor never reaches the end of
    the text: no boundary is more than [overlap] characters past a cursor
    below the end. *)
Lemma chunk_loop_overlap_too_large (text : str) (chunk_size overlap : Z) :
  0 < chunk_size ≤ overlap →
  ∀ fuel start acc chunks,
    start < len text →
    chunk_loop fuel text chunk_size overlap start acc ≠ Some (Ok chunks).
Proof.
  intros Hcfg fuel.
  induction fuel as [|fuel IH]; intros start acc chunks Hlt; [done|].
  destruct (boundary text chunk_size start) as [e|x] eqn:Hb.
  - rewrite (chunk_loop_step _ _ _ _ _ _ _ Hlt Hb).
    apply boundary_spec in Hb; [|lia].
    assert (e - overlap < len text) as Hgo.
    { destruct Hb as [->|(? & ? & _)]; lia. }
    destruct (Z.leb_spec (len text) (e - overlap)); [lia|]. by apply IH.
  - cbn [chunk_loop]. rewrite Hb.
    by destruct (Z.ltb_spec start (len text)); [|lia].
Qed.

(** C5 (amended).  [chunk_text] checks nothing: whatever the configuration,
    a text no longer than [chunk_size] comes back as the single chunk
    [[text]]; and with [0 < chunk_size <= overlap] a longer text yields no
    list of chunks, because the loop runs for ever or raises IndexError,
    not because the parameters are refused. *)
Theorem chunk_text_no_validation (text : str) (chunk_size overlap : Z)
    (fuel : nat) :
  (len text ≤ chunk_size →
   chunk_text fuel text chunk_size overlap = Some (Ok [text]))
  ∧ (0 < chunk_size ≤ overlap → chunk_size < len text →
     ∀ chunks, chunk_text fuel text chunk_size overlap ≠ Some (Ok chunks)).
Proof.
  unfold chunk_text. split.
  - intros Hle. by destruct (Z.leb_spec (len text) chunk_size); [|lia].
  - intros Hcfg Hlong chunks.
    destruct (Z.leb_spec (len text) chunk_size); [lia|].
    apply chunk_loop_overlap_too_large; [done|lia].
Qed.

Lemma chunk_text_no_validation_witness :
  len (py_str "abc") ≤ 10 ∧ ¬ valid_configuration 10 20
  ∧ chunk_text 0 (py_str "abc") 10 20 = Some (Ok [py_str "abc"]).
Proof.
  split; [vm_compute; discriminate|].
  split; [unfold valid_configuration; lia|].
  refine (proj1 (chunk_text_no_validation (py_str "abc") 10 20 0) _).
  vm_compute; discriminate.
Defined.

(** C5 (counterexample).  Neither an overlap above the maximal size nor a
    maximal size of 0 is refused: a list of chunks is returned. *)
Lemma chunk_text_invalid_configuration_counterexample :
  (10 ≤ 20 ∧ chunk_text 0 (py_str "abc") 10 20 = Some (Ok [py_str "abc"]))
  ∧ (0 ≤ 0 ∧ chunk_text 0 [] 0 0 = Some (Ok [[]]))
  ∧ (-5 ≤ 0 ∧ chunk_text 2 (py_str "abc") (-5) (-10) = Some (Ok [[]])).
Proof. repeat split; vm_compute; congruence. Qed.

(** ** extract_rag_chunks *)

(** C3 (amended).  An item labelled [table] whose text is not blank adds
    exactly one chunk, whole ([chunk_index] 0, [total_chunks] 1, not
    partial), whatever the length of its text; [chunk_text] is not run on
    it: the answer needs no fuel. *)
Theorem table_item_one_chunk (fuel : nat) (src : string)
    (chunk_size overlap : Z) (item : DocItem) (item_text : str)
    (chunks : list Chunk) (chunk_id : Z) :
  get_item_text item = Some (Some item_text) →
  strip item_text ≠ [] →
  item_label item = Some "table"%string →
  process_item fuel src chunk_size overlap item (chunks, chunk_id) =
    Some (Ok (chunks ++ [whole_chunk src item item_text (chunk_id + 1)],
              chunk_id + 1))
  ∧ extract_rag_chunks fuel src [item] chunk_size overlap =
      Some (Ok [whole_chunk src item item_text 1]).
Proof.
  intros Htext Hstrip Hlabel.
  assert (∀ chunks chunk_id,
    process_item fuel src chunk_size overlap item (chunks, chunk_id) =
    Some (Ok (chunks ++ [whole_chunk src item item_text (chunk_id + 1)],
              chunk_id + 1))) as Hitem.
  { intros chunks' chunk_id'. unfold process_item. rewrite Htext.
    assert (item_text ≠ []) as Hne by (by intros ->).
    rewrite !bool_decide_eq_false_2 by done. cbn [orb].
    rewrite Hlabel. cbn [default]. change (String.eqb "table" "table") with true.
    cbn [negb]. rewrite andb_false_r. unfold whole_chunk. by rewrite Hlabel. }
  split; [apply Hitem|].
  unfold extract_rag_chunks. cbn [process_items]. by rewrite Hitem.
Qed.

Lemma table_item_one_chunk_witness :
  get_item_text (table_item (rep 5000 "x")) = Some (Some (rep 5000 "x"))
  ∧ strip (rep 5000 "x") ≠ []
  ∧ 1000 < len (rep 5000 "x")
  ∧ extract_rag_chunks 0 "doc.pdf" [table_item (rep 5000 "x")] 1000 200 =
      Some (Ok [whole_chunk "doc.pdf" (table_item (rep 5000 "x"))
                  (rep 5000 "x") 1])
  ∧ chunk_text 0 (rep 5000 "x") 1000 200 = None.
Proof.
  split; [reflexivity|]. split; [vm_compute; discriminate|].
  split; [vm_compute; reflexivity|]. split; [|vm_compute; reflexivity].
  refine (proj2 (table_item_one_chunk 0 "doc.pdf" 1000 200
                   (table_item (rep 5000 "x")) (rep 5000 "x") [] 0 _ _ _));
    [reflexivity|vm_compute; discriminate|reflexivity].
Defined.

(** C3 (counterexample).  Both labels are in [TABLE_CONTENT_TYPES]; a table
    whose markdown is blank gives no chunk, and a document index of 2400
    characters is cut into three partial chunks. *)
Lemma table_types_counterexample :
  ("table"%string ∈ ChromaDBConfig.TABLE_CONTENT_TYPES
   ∧ item_label (table_item (py_str "   ")) = Some "table"%string
   ∧ extract_rag_chunks 0 "doc.pdf" [table_item (py_str "   ")] 1000 200 =
       Some (Ok []))
  ∧ ("document_index"%string ∈ ChromaDBConfig.TABLE_CONTENT_TYPES
     ∧ item_label document_index_item = Some "document_index"%string
     ∧ ∃ chunks,
         extract_rag_chunks 3 "doc.pdf" [document_index_item] 1000 200 =
           Some (Ok chunks)
         ∧ length chunks = 3%nat
         ∧ Forall (λ c, is_partial (metadata c) = true) chunks).
Proof.
  split.
  - split; [set_solver|]. split; reflexivity.
  - split; [set_solver|]. split; [reflexivity|].
    eexists. split; [vm_compute; reflexivity|].
    split; [reflexivity|]. repeat constructor.
Qed.

(** ** ingest_to_chromadb: the batch loop *)

Lemma skipped_batches_app (t1 t2 : list Event) :
  skipped_batches (t1 ++ t2) = (skipped_batches t1 + skipped_batches t2)%nat.
Proof. unfold skipped_batches. by rewrite List.filter_app, length_app. Qed.

Lemma raised_adds_app (t1 t2 : list Event) :
  raised_adds (t1 ++ t2) = (raised_adds t1 + raised_adds t2)%nat.
Proof. unfold raised_adds. by rewrite List.filter_app, length_app. Qed.

Lemma add_calls_app (t1 t2 : list Event) :
  add_calls (t1 ++ t2) = add_calls t1 ++ add_calls t2.
Proof.
  induction t1 as [|e t1 IH]; [done|].
  destruct e; simpl; by rewrite IH.
Qed.



Section IngestionProperties.
Context {Collection : Type}.
Variable collection_add :
  Collection → list string → list str → list MetadataDict →
  Collection * option string.
Variable collection_count : Collection → Z.

(** Every start index gets its call, whatever the earlier calls did, and
    an error line is printed exactly when a call raised. *)
Lemma ingest_batches_trace (BATCH_SIZE : Z) (ids : list string)
    (documents : list str) (metadatas : list MetadataDict)
    (starts : list Z) (collection : Collection) (trace : list Event) :
  let st := foldl (ingest_batch collection_add BATCH_SIZE ids documents
                     metadatas) (collection, trace) starts in
  add_calls st.2 =
    add_calls trace ++ (batch_at BATCH_SIZE ids documents metadatas <$> starts)
  ∧ (skipped_batches st.2 + raised_adds trace
     = raised_adds st.2 + skipped_batches trace)%nat
  ∧ st.1 = after_calls collection_add collection
             (batch_at BATCH_SIZE ids documents metadatas <$> starts)
  ∧ ∃ loop_trace,
      st.2 = trace ++ loop_trace ∧ forallb is_batch_event loop_trace = true.
Proof.
  revert collection trace.
  induction starts as [|i starts IH]; intros collection trace.
  - simpl. split_and!;
      [by rewrite app_nil_r|lia|done|by exists []; rewrite app_nil_r].
  - cbn [foldl fmap list_fmap].
    set (st1 := ingest_batch collection_add BATCH_SIZE ids documents
                  metadatas (collection, trace) i).
    specialize (IH st1.1 st1.2). rewrite <- surjective_pairing in IH.
    destruct IH as (Hcalls & Hcount & Hcoll & loop_trace & Htrace & Hloop).
    assert (add_calls st1.2 =
              add_calls trace ++ [batch_at BATCH_SIZE ids documents metadatas i]
            ∧ (skipped_batches st1.2 + raised_adds trace
               = raised_adds st1.2 + skipped_batches trace)%nat
            ∧ st1.1 = (collection_add collection
                         (slice ids i (Z.min (i + BATCH_SIZE) (len documents)))
                         (slice documents i (Z.min (i + BATCH_SIZE) (len documents)))
                         (slice metadatas i (Z.min (i + BATCH_SIZE) (len documents)))).1
            ∧ ∃ t, st1.2 = trace ++ t ∧ forallb is_batch_event t = true)
      as (H1 & H2 & H3 & t & H4 & Ht).
    { subst st1. unfold ingest_batch, batch_at.
      destruct (collection_add _ _ _ _) as [c [e|]]; cbn [fst snd];
        rewrite add_calls_app, skipped_batches_app, raised_adds_app;
        (split; [done|]); (split; [cbn; lia|]); (split; [done|]); eauto. }
    split_and!.
    + rewrite Hcalls, H1, <- app_assoc. done.
    + lia.
    + rewrite Hcoll, H3. done.
    + exists (t ++ loop_trace). rewrite Htrace, H4, <- app_assoc.
      split; [done|]. by rewrite forallb_app, Ht, Hloop.
Qed.

End IngestionProperties.



(** ** prepare_chunk_data *)

(** The test made by the loop is the filter of the specification. *)
Lemma prepare_chunk_keeps (include_types exclude_types : option (gset string))
    (ctype : string) :
  negb (truthy include_types && negb (contains include_types ctype))
  && negb (truthy exclude_types && contains exclude_types ctype)
  = passes_type_filters include_types exclude_types ctype.
Proof.
  unfold passes_type_filters, truthy, contains.
  destruct include_types as [inc|], exclude_types as [exc|]; simpl;
    repeat case_bool_decide; simpl; try done; set_solver.
Qed.

Lemma prepare_chunk_data_acc (include_types exclude_types : option (gset string))
    (chunks : list Chunk) (ids : list string) (documents : list str)
    (metadatas : list MetadataDict) :
  foldl (prepare_chunk include_types exclude_types)
    (ids, documents, metadatas) chunks =
  let kept :=
    List.filter (λ c, passes_type_filters include_types exclude_types
                        (content_type (metadata c))) chunks in
  (ids ++ ((λ c, format_chunk_id (chunk_id c)) <$> kept),
   documents ++ (text <$> kept),
   metadatas ++ (chunk_metadata <$> kept)).
Proof.
  revert ids documents metadatas.
  induction chunks as [|c chunks IH]; intros ids documents metadatas.
  - simpl. by rewrite !app_nil_r.
  - cbn [foldl List.filter]. unfold prepare_chunk at 2.
    rewrite <- prepare_chunk_keeps.
    destruct (truthy include_types
              && negb (contains include_types (content_type (metadata c))));
      [apply IH|].
    destruct (truthy exclude_types
              && contains exclude_types (content_type (metadata c)));
      [apply IH|].
    rewrite IH. cbn [negb andb fmap list_fmap]. by rewrite <- !app_assoc.
Qed.

(** On chunks that carry every key, [prepare_chunk_data] keeps, in the
    order of the input, the chunks whose content type passes both filters,
    an empty [include_types] counting as no filter; the three lists are
    the ids, texts and metadata of the chunks kept, so they have the same
    length and the same order. *)
Theorem prepare_chunk_data_filters (chunks : list Chunk)
    (include_types exclude_types : option (gset string)) :
  let kept :=
    List.filter (λ c, passes_type_filters include_types exclude_types
                        (content_type (metadata c))) chunks in
  prepare_chunk_data chunks include_types exclude_types =
    ((λ c, format_chunk_id (chunk_id c)) <$> kept,
     text <$> kept,
     chunk_metadata <$> kept)
  ∧ (∀ c, c ∈ kept ↔
          c ∈ chunks
          ∧ (include_types = None ∨ include_types = Some ∅
             ∨ ∃ s, include_types = Some s ∧ content_type (metadata c) ∈ s)
          ∧ (exclude_types = None
             ∨ ∃ s, exclude_types = Some s ∧ content_type (metadata c) ∉ s))
  ∧ (include_types = Some ∅ → exclude_types = None → kept = chunks)
  ∧ length (prepare_chunk_data chunks include_types exclude_types).1.1
    = length (prepare_chunk_data chunks include_types exclude_types).1.2
  ∧ length (prepare_chunk_data chunks include_types exclude_types).1.2
    = length (prepare_chunk_data chunks include_types exclude_types).2.
Proof.
  intros kept.
  assert (prepare_chunk_data chunks include_types exclude_types =
    ((λ c, format_chunk_id (chunk_id c)) <$> kept,
     text <$> kept,
     chunk_metadata <$> kept)) as Heq.
  { unfold prepare_chunk_data. by rewrite prepare_chunk_data_acc. }
  split; [done|]. split; [|split].
  - intros c. subst kept. rewrite list_elem_of_In, filter_In, <- list_elem_of_In.
    apply and_iff_compat_l. unfold passes_type_filters.
    rewrite andb_true_iff.
    assert (match include_types with
            | Some s => bool_decide (s = ∅)
                        || bool_decide (content_type (metadata c) ∈ s)
            | None => true
            end = true
            ↔ include_types = None ∨ include_types = Some ∅
              ∨ ∃ s, include_types = Some s ∧ content_type (metadata c) ∈ s)
      as ->.
    { destruct include_types as [s|]; [|by split; [left|]].
      rewrite orb_true_iff, !bool_decide_eq_true. split.
      - intros [->|Hin]; [by right; left|]. right; right. by exists s.
      - intros [?|[[= ->]|(s' & [= ->] & Hin)]]; [done|by left|by right]. }
    assert (match exclude_types with
            | Some s => negb (bool_decide (content_type (metadata c) ∈ s))
            | None => true
            end = true
            ↔ exclude_types = None
              ∨ ∃ s, exclude_types = Some s ∧ content_type (metadata c) ∉ s)
      as ->.
    { destruct exclude_types as [s|]; [|by split; [left|]].
      rewrite negb_true_iff, bool_decide_eq_false. split.
      - intros Hout. right. by exists s.
      - by intros [?|(s' & [= ->] & Hout)]. }
    done.
  - intros -> ->. subst kept. clear Heq.
    assert (∀ ctype, passes_type_filters (Some ∅) None ctype = true) as Hall.
    { intros ctype. unfold passes_type_filters.
      by rewrite (bool_decide_eq_true_2 (∅ = ∅)). }
    induction chunks as [|c chunks IH]; [done|].
    cbn [List.filter]. by rewrite Hall, IH.
  - rewrite Heq. cbn [fst snd]. by rewrite !length_fmap.
Qed.

(** ** query_chromadb *)

(** C8.  [similarity_search] sends the query on with
    [min(n_results, MAX_RESULTS)] and returns the answer as it is; nothing
    is refused.  With [MAX_RESULTS = 50] a request for 10000 results asks
    for 50, and a service that returns no more than it is asked for
    returns at most 50. *)
Theorem similarity_search_clamps_n_results {Distance}
    (self : ChromaDBQuerier Distance) (query : str) (n : Z)
    (filter document_filter : option Where) :
  similarity_search self query n filter document_filter =
    collection_query self
      {| query_texts := [query];
         n_results := Z.min n (ChromaDBConfig.MAX_RESULTS (config self));
         where_ := filter;
         where_document := document_filter |}
  ∧ (ChromaDBConfig.MAX_RESULTS (config self) = 50 →
     n_results (similarity_search_request (config self) query 10000
                  filter document_filter) = 50
     ∧ (honours_n_results self →
        Forall (λ ids, len ids ≤ 50)
          (res_ids (similarity_search self query n filter document_filter)))).
Proof.
  split; [reflexivity|]. intros Hmax. split.
  - unfold similarity_search_request. cbn [n_results]. rewrite Hmax. reflexivity.
  - intros Hservice. unfold similarity_search.
    eapply Forall_impl; [apply Hservice|]. cbn beta.
    intros ids. unfold similarity_search_request. cbn [n_results]. lia.
Qed.

Lemma similarity_search_clamps_n_results_witness :
  ChromaDBConfig.MAX_RESULTS (config sample_querier) = 50
  ∧ honours_n_results sample_querier
  ∧ len <$> res_ids (similarity_search sample_querier (py_str "revenue")
                       10000 None None) = [50]
  ∧ Forall (λ ids, len ids ≤ 50)
      (res_ids (similarity_search sample_querier (py_str "revenue")
                  10000 None None)).
Proof.
  assert (honours_n_results sample_querier) as Hservice.
  { intros req. cbn. apply Forall_singleton.
    unfold len. rewrite length_fmap, length_take. lia. }
  split; [reflexivity|]. split; [exact Hservice|].
  split; [vm_compute; reflexivity|].
  exact (proj2 (proj2 (similarity_search_clamps_n_results sample_querier
                         (py_str "revenue") 10000 None None) eq_refl)
           Hservice).
Defined.

Lemma chunk_metadata_page (chunk : Chunk) :
  chunk_metadata chunk !! "page"%string
  = Some (VInt (or_zero (page (metadata chunk)))).
Proof. reflexivity. Qed.

(** C9.  [search_by_page_range] sends the filter built by cases on the two
    optional bounds: the conjunction of [page >= min] and [page <= max],
    one of the two comparisons alone, or the empty filter; a chunk whose
    metadata hold the page [p] matches it exactly when [p] respects every
    bound that is given. *)
Theorem search_by_page_range_filter {Distance}
    (self : ChromaDBQuerier Distance) (query : str)
    (page_min page_max : option Z) (n : Z) :
  search_by_page_range self query page_min page_max n =
    collection_query self
      {| query_texts := [query];
         n_results := Z.min n (ChromaDBConfig.MAX_RESULTS (config self));
         where_ := Some (page_range_filter page_min page_max);
         where_document := None |}
  ∧ (∀ lo hi, page_range_filter (Some lo) (Some hi)
              = WhereAnd [WhereCmp "page" Gte lo; WhereCmp "page" Lte hi])
  ∧ (∀ lo, page_range_filter (Some lo) None = WhereCmp "page" Gte lo)
  ∧ (∀ hi, page_range_filter None (Some hi) = WhereCmp "page" Lte hi)
  ∧ page_range_filter None None = WhereEmpty
  ∧ (∀ (m : MetadataDict) (p : Z),
       m !! "page"%string = Some (VInt p) →
       matches (page_range_filter page_min page_max) m = true
       ↔ (∀ lo, page_min = Some lo → lo ≤ p)
         ∧ (∀ hi, page_max = Some hi → p ≤ hi))
  ∧ (∀ chunk : Chunk,
       matches (page_range_filter page_min page_max) (chunk_metadata chunk)
         = true
       ↔ (∀ lo, page_min = Some lo → lo ≤ or_zero (page (metadata chunk)))
         ∧ (∀ hi, page_max = Some hi → or_zero (page (metadata chunk)) ≤ hi)).
Proof.
  assert (∀ (m : MetadataDict) (p : Z),
       m !! "page"%string = Some (VInt p) →
       matches (page_range_filter page_min page_max) m = true
       ↔ (∀ lo, page_min = Some lo → lo ≤ p)
         ∧ (∀ hi, page_max = Some hi → p ≤ hi)) as Hsem.
  { intros m p Hp.
    destruct page_min as [lo|], page_max as [hi|];
      cbn [page_range_filter matches forallb]; rewrite ?Hp.
    - rewrite andb_true_r, andb_true_iff, !Z.leb_le. split.
      + intros [Hlo Hhi]. split; by intros ? [= <-].
      + intros [Hlo Hhi]. split; [by apply Hlo|by apply Hhi].
    - rewrite Z.leb_le. split.
      + intros Hlo. split; [by intros ? [= <-]|done].
      + intros [Hlo _]. by apply Hlo.
    - rewrite Z.leb_le. split.
      + intros Hhi. split; [done|by intros ? [= <-]].
      + intros [_ Hhi]. by apply Hhi.
    - done. }
  split; [reflexivity|]. do 4 (split; [reflexivity|]). split; [exact Hsem|].
  intros chunk. apply Hsem, chunk_metadata_page.
Qed.

(** ** chunk_text: more on the chunks returned *)

Lemma lstrip_head (s : str) :
  match lstrip s with
  | [] => True
  | c :: _ => isspace c = false
  end.
Proof.
  induction s as [|c s IH]; simpl; [done|].
  by destruct (isspace c) eqn:Hc.
Qed.

Lemma lstrip_id (c : ascii) (s : str) :
  isspace c = false → lstrip (c :: s) = c :: s.
Proof. intros Hc. simpl. by rewrite Hc. Qed.

Lemma lstrip_idemp (s : str) : lstrip (lstrip s) = lstrip s.
Proof.
  pose proof (lstrip_head s) as H.
  destruct (lstrip s) as [|c r]; [done|]. by apply lstrip_id.
Qed.

Lemma lstrip_snoc (s : str) (c : ascii) :
  isspace c = false → lstrip (s ++ [c]) = lstrip s ++ [c].
Proof.
  intros Hc. induction s as [|d s IH]; simpl; [by rewrite Hc|].
  by destruct (isspace d).
Qed.

Lemma rstrip_cons (c : ascii) (s : str) :
  isspace c = false → ∃ r, rstrip (c :: s) = c :: r.
Proof.
  intros Hc. unfold rstrip. rewrite reverse_cons, lstrip_snoc by done.
  rewrite reverse_app. cbn. eauto.
Qed.

Lemma rstrip_idemp (s : str) : rstrip (rstrip s) = rstrip s.
Proof. unfold rstrip. by rewrite reverse_involutive, lstrip_idemp. Qed.

(** Trimming twice changes nothing more. *)
Lemma strip_idemp (s : str) : strip (strip s) = strip s.
Proof.
  unfold strip. pose proof (lstrip_head s) as Hhead.
  destruct (lstrip s) as [|c t] eqn:Ht; [done|].
  destruct (rstrip_cons c t Hhead) as [r Hr].
  rewrite Hr, (lstrip_id c r Hhead), <- Hr. apply rstrip_idemp.
Qed.

(** The run of the loop from a cursor inside the text, as a chain of
    cursors and boundaries. *)
Lemma chunk_loop_chained (text : str) (chunk_size overlap : Z) :
  valid_configuration chunk_size overlap →
  ∀ fuel start acc r,
    0 ≤ start < len text →
    chunk_loop fuel text chunk_size overlap start acc = Some (Ok r) →
    ∃ spans,
      r = acc ++ (chunk_of text <$> spans)
      ∧ chained (len text) overlap start spans
      ∧ Forall (λ span, span.2 - span.1 ≤ chunk_size + 1) spans.
Proof.
  intros Hvalid fuel.
  induction fuel as [|fuel IH]; intros start acc r Hstart; [done|].
  destruct (boundary text chunk_size start) as [e|x] eqn:Hb.
  2: { cbn [chunk_loop]. rewrite Hb.
       by destruct (Z.ltb_spec start (len text)); [|lia]. }
  rewrite (chunk_loop_step _ _ _ _ _ _ _ (proj2 Hstart) Hb).
  pose proof (boundary_bounds _ _ _ _ (proj1 Hvalid) Hb) as [Hbounds _].
  destruct (Z.leb_spec (len text) (e - overlap)) as [Hend|Hgo].
  - intros [= <-]. exists [(start, e)]. split; [done|]. split.
    + cbn. repeat split; lia.
    + apply Forall_singleton. cbn. lia.
  - destruct (Z.lt_ge_cases (e - overlap) 0) as [Hneg|Hpos].
    { by rewrite (chunk_loop_negative_cursor _ _ _ start e). }
    intros Hrun. apply IH in Hrun as (spans & -> & Hchain & Hsizes); [|lia].
    exists ((start, e) :: spans). split; [by rewrite <- app_assoc|]. split.
    + destruct spans as [|span spans]; [done|].
      cbn [chained]. repeat split; try lia. exact Hchain.
    + constructor; [cbn; lia|done].
Qed.

(** Every position at or after the first cursor lies in one of the chained
    pairs. *)
Lemma chained_covers (length_ overlap : Z) (spans : list (Z * Z)) :
  0 ≤ overlap →
  ∀ start j,
    chained length_ overlap start spans →
    start ≤ j < length_ →
    ∃ span, span ∈ spans ∧ span.1 ≤ j < span.2.
Proof.
  intros Hov. induction spans as [|[s e] rest IH]; intros start j; [done|].
  cbn [chained]. intros (-> & Hlt & Hrest) Hj.
  destruct (Z.lt_ge_cases j e) as [Hin|Hout].
  - exists (start, e). split; [left|cbn; lia].
  - destruct rest as [|span rest]; [lia|].
    destruct Hrest as [Hnext Hchain].
    destruct (IH (e - overlap) j Hchain) as (span' & Hel & Hspan); [lia|].
    exists span'. split; [by right|done].
Qed.

(** X3.  Under the documented precondition the chunks of a text longer
    than [chunk_size] are the trimmed slices of a chain of cursors and
    boundaries that starts at 0, steps back by exactly [overlap] from each
    boundary to the next cursor and ends at or after the end of the text:
    every character position of the text lies in the slice of some
    chunk. *)
Theorem chunk_text_covers_text (text : str) (chunk_size overlap : Z)
    (fuel : nat) (chunks : list str) :
  valid_configuration chunk_size overlap →
  chunk_size < len text →
  chunk_text fuel text chunk_size overlap = Some (Ok chunks) →
  ∃ spans,
    chunks = chunk_of text <$> spans
    ∧ chained (len text) overlap 0 spans
    ∧ ∀ j, 0 ≤ j < len text → ∃ span, span ∈ spans ∧ span.1 ≤ j < span.2.
Proof.
  intros Hvalid Hlong. unfold chunk_text.
  destruct (Z.leb_spec (len text) chunk_size); [lia|]. intros Hrun.
  apply chunk_loop_chained in Hrun as (spans & -> & Hchain & _);
    [|done|pose proof (proj1 Hvalid); lia].
  exists spans. split; [done|]. split; [done|].
  intros j Hj. eapply chained_covers; [|exact Hchain|done].
  by destruct Hvalid as (_ & ? & _).
Qed.

Lemma chunk_text_covers_text_witness :
  valid_configuration 8 2
  ∧ 8 < len text_three_sentences
  ∧ chunk_text 5 text_three_sentences 8 2 =
      Some (Ok [py_str "aaaa."; py_str "a. bbbb."; py_str "b. cccc";
                py_str "c"])
  ∧ ∃ spans,
      [py_str "aaaa."; py_str "a. bbbb."; py_str "b. cccc"; py_str "c"]
        = chunk_of text_three_sentences <$> spans
      ∧ chained (len text_three_sentences) 2 0 spans
      ∧ ∀ j, 0 ≤ j < len text_three_sentences →
             ∃ span, span ∈ spans ∧ span.1 ≤ j < span.2.
Proof.
  split; [unfold valid_configuration; lia|].
  split; [vm_compute; reflexivity|].
  split; [vm_compute; reflexivity|].
  apply (chunk_text_covers_text text_three_sentences 8 2 5);
    [unfold valid_configuration; lia|vm_compute; reflexivity
    |vm_compute; reflexivity].
Defined.

(** The start indices of [range(0, n, step)] are the multiples of [step]
    below [n]. *)
Lemma range0_index_lt (n step : Z) (k : nat) :
  0 < step → 0 ≤ n →
  (k < Z.to_nat ((n + step - 1) `div` step))%nat ↔ Z.of_nat k * step < n.
Proof.
  intros Hstep Hn.
  pose proof (Z.div_mod (n + step - 1) step ltac:(lia)) as Hdiv.
  pose proof (Z.mod_pos_bound (n + step - 1) step ltac:(lia)) as Hmod.
  assert (0 ≤ (n + step - 1) `div` step) by (apply Z.div_pos; lia).
  split; intros Hk; nia.
Qed.

Lemma chunk_loop_hard_cut (text : str) (chunk_size overlap : Z) :
  valid_configuration chunk_size overlap →
  Forall (λ c, sentence_end c = false) text →
  ∀ (m k fuel : nat) acc,
    (k + S m = Z.to_nat ((len text + (chunk_size - overlap) - 1)
                           `div` (chunk_size - overlap)))%nat →
    (S m ≤ fuel)%nat →
    chunk_loop fuel text chunk_size overlap
      (Z.of_nat k * (chunk_size - overlap)) acc =
    Some (Ok (acc ++ ((λ j : nat,
                         strip (slice text (Z.of_nat j * (chunk_size - overlap))
                                  (Z.of_nat j * (chunk_size - overlap)
                                   + chunk_size)))
                        <$> seq k (S m)))).
Proof.
  intros (Hcs & Hov) Hno m. pose proof (len_nonneg text) as Hlen.
  induction m as [|m IH]; intros k fuel acc Hk Hfuel;
    (destruct fuel as [|fuel]; [lia|]);
    (rewrite (chunk_loop_step _ _ _ _ _
                (Z.of_nat k * (chunk_size - overlap) + chunk_size));
     [|apply range0_index_lt; lia
      |apply boundary_no_sentence_end; [done|lia|nia]]);
    replace (Z.of_nat k * (chunk_size - overlap) + chunk_size - overlap)
      with (Z.of_nat (S k) * (chunk_size - overlap)) by lia.
  - destruct (Z.leb_spec (len text) (Z.of_nat (S k) * (chunk_size - overlap)))
      as [_|Hlt]; [done|].
    apply range0_index_lt in Hlt; lia.
  - destruct (Z.leb_spec (len text) (Z.of_nat (S k) * (chunk_size - overlap)))
      as [Hge|_].
    { assert (Z.of_nat (S k) * (chunk_size - overlap) < len text); [|lia].
      apply range0_index_lt; lia. }
    rewrite (IH (S k)) by lia. by rewrite <- app_assoc.
Qed.

(** X4.  In a text without sentence end, longer than [chunk_size], the
    chunks are cut at the raw boundaries: they are the trimmed slices
    [text[s : s + chunk_size]] for [s] in
    [range(0, len(text), chunk_size - overlap)], in this order, as soon as
    the fuel allows one iteration per chunk. *)
Theorem chunk_text_hard_cut (text : str) (chunk_size overlap : Z)
    (fuel : nat) :
  valid_configuration chunk_size overlap →
  chunk_size < len text →
  no_sentence_end text = true →
  (length (range0 (len text) (chunk_size - overlap)) ≤ fuel)%nat →
  chunk_text fuel text chunk_size overlap =
    Some (Ok ((λ s, strip (slice text s (s + chunk_size)))
                <$> range0 (len text) (chunk_size - overlap))).
Proof.
  intros Hvalid Hlong Hno Hfuel. apply no_sentence_end_Forall in Hno.
  pose proof Hvalid as (Hcs & Hov). unfold chunk_text.
  destruct (Z.leb_spec (len text) chunk_size); [lia|].
  revert Hfuel. unfold range0.
  destruct (Z.ltb_spec 0 (chunk_size - overlap)); [|lia].
  rewrite length_fmap, length_seq. intros Hfuel.
  destruct (Z.to_nat ((len text + (chunk_size - overlap) - 1)
                        `div` (chunk_size - overlap))) as [|m] eqn:Hn.
  { assert (0 < Z.to_nat ((len text + (chunk_size - overlap) - 1)
                            `div` (chunk_size - overlap)))%nat; [|lia].
    apply (range0_index_lt (len text) (chunk_size - overlap) 0); lia. }
  change 0 with (Z.of_nat 0 * (chunk_size - overlap)) at 1.
  rewrite (chunk_loop_hard_cut text chunk_size overlap Hvalid Hno m 0)
    by lia.
  by rewrite <- list_fmap_compose.
Qed.

Lemma chunk_text_hard_cut_witness :
  valid_configuration 1000 200
  ∧ 1000 < len (rep 2400 "a")
  ∧ no_sentence_end (rep 2400 "a") = true
  ∧ range0 (len (rep 2400 "a")) (1000 - 200) = [0; 800; 1600]
  ∧ chunk_text 3 (rep 2400 "a") 1000 200 =
      Some (Ok ((λ s, strip (slice (rep 2400 "a") s (s + 1000)))
                  <$> range0 (len (rep 2400 "a")) (1000 - 200))).
Proof.
  split; [unfold valid_configuration; lia|].
  split; [vm_compute; reflexivity|].
  split; [vm_compute; reflexivity|].
  split; [vm_compute; reflexivity|].
  apply (chunk_text_hard_cut (rep 2400 "a") 1000 200 3);
    [unfold valid_configuration; lia|vm_compute; reflexivity
    |vm_compute; reflexivity|vm_compute; lia].
Defined.

(** ** extract_rag_chunks: the chunks and their numbering *)

Lemma emit_partial_imap (src ctype : string) (page_num : option Z)
    (total : Z) (text_chunks : list str) :
  ∀ (i : Z) (chunks : list Chunk) (chunk_id : Z),
    emit_partial src ctype page_num total i text_chunks chunks chunk_id =
    (chunks ++ imap (λ (j : nat) text_chunk,
                       partial_chunk src ctype page_num total
                         (chunk_id + 1 + Z.of_nat j) (i + Z.of_nat j)
                         text_chunk) text_chunks,
     chunk_id + len text_chunks).
Proof.
  induction text_chunks as [|tc tcs IH]; intros i chunks chunk_id.
  - cbn. rewrite app_nil_r. f_equal. unfold len. cbn. lia.
  - cbn [emit_partial]. rewrite IH, imap_cons, <- app_assoc. cbn [app].
    f_equal.
    + f_equal. f_equal.
      * apply (f_equal2 (λ a b, partial_chunk src ctype page_num total a b tc));
          lia.
      * apply imap_ext. intros j x _. cbn.
        apply (f_equal2 (λ a b, partial_chunk src ctype page_num total a b x));
          lia.
    + unfold len. cbn [length]. lia.
Qed.

(** The chunks appended by the loop are trimmed, whatever the
    configuration. *)
Lemma chunk_loop_trimmed (text : str) (chunk_size overlap : Z) :
  ∀ fuel start acc r,
    Forall (λ c, strip c = c) acc →
    chunk_loop fuel text chunk_size overlap start acc = Some (Ok r) →
    Forall (λ c, strip c = c) r.
Proof.
  intros fuel. induction fuel as [|fuel IH]; intros start acc r Hacc; [done|].
  cbn [chunk_loop]. destruct (start <? len text); [|by intros [= <-]].
  destruct (boundary text chunk_size start) as [e|]; [|done].
  assert (Forall (λ c, strip c = c) (acc ++ [strip (slice text start e)])).
  { apply Forall_app. split; [done|]. apply Forall_singleton, strip_idemp. }
  destruct (len text <=? e - overlap); [by intros [= <-]|]. by apply IH.
Qed.

Lemma item_is_skipped_process (fuel : nat) (src : string)
    (chunk_size overlap : Z) (item : DocItem) (st : list Chunk * Z) :
  item_is_skipped item = true →
  process_item fuel src chunk_size overlap item st = Some (Ok st).
Proof.
  unfold item_is_skipped, process_item. destruct st as [chunks chunk_id].
  destruct (get_item_text item) as [[item_text|]|]; [|done..].
  by intros ->.
Qed.

(** What one item appends: nothing, its whole text, or the chunks of
    [chunk_text] numbered from 0; the counter advances by as much. *)
Lemma process_item_block (fuel : nat) (src : string) (chunk_size overlap : Z)
    (item : DocItem) (chunks : list Chunk) (counter : Z) st :
  process_item fuel src chunk_size overlap item (chunks, counter)
    = Some (Ok st) →
  ∃ block,
    st = (chunks ++ block, counter + len block)
    ∧ chunk_id <$> block
      = (λ k : nat, IntId (counter + Z.of_nat k)) <$> seq 1 (length block)
    ∧ Forall (chunk_invariant src) block.
Proof.
  destruct (item_is_skipped item) eqn:Hskip.
  { rewrite item_is_skipped_process by done. intros [= <-].
    exists []. rewrite app_nil_r. split; [f_equal; unfold len; cbn; lia|].
    split; [done|constructor]. }
  unfold item_is_skipped in Hskip. unfold process_item.
  destruct (get_item_text item) as [[item_text|]|]; [|done..].
  rewrite Hskip. apply orb_false_iff in Hskip as [_ Hblank].
  apply bool_decide_eq_false in Hblank.
  destruct (_ && _) eqn:Hsplit.
  - apply andb_true_iff in Hsplit as [Hlong Hlabel].
    apply Z.ltb_lt in Hlong. apply negb_true_iff, String.eqb_neq in Hlabel.
    destruct (chunk_text fuel item_text chunk_size overlap)
      as [[text_chunks|]|] eqn:Hrun; [|done..].
    intros [= <-]. rewrite emit_partial_imap.
    eexists. split.
    { apply (f_equal2 pair); [reflexivity|].
      unfold len. by rewrite length_imap. }
    split.
    + rewrite fmap_imap, length_imap.
      rewrite <- (imap_seq text_chunks
                    (λ k, IntId (counter + Z.of_nat k)) 1).
      apply imap_ext. intros j x _. cbn. f_equal. lia.
    + assert (Forall (λ c, strip c = c) text_chunks) as Htrim.
      { revert Hrun. unfold chunk_text.
        destruct (Z.leb_spec (len item_text) chunk_size); [lia|].
        by apply chunk_loop_trimmed. }
      apply Forall_forall. intros c Hc.
      apply elem_of_lookup_imap in Hc as (j & tc & -> & Hj).
      pose proof (lookup_lt_Some _ _ _ Hj) as Hlt.
      rewrite Forall_forall in Htrim.
      unfold chunk_invariant, partial_chunk. cbn.
      split; [done|]. split; [unfold len; lia|].
      split; [eapply Htrim, list_elem_of_lookup_2, Hj|]. by split.
  - intros [= <-]. exists [whole_chunk src item item_text (counter + 1)].
    split; [done|]. split; [done|]. apply Forall_singleton.
    unfold chunk_invariant, whole_chunk. cbn.
    split; [done|]. split; [lia|]. split; [apply strip_idemp|]. by split.
Qed.

Lemma process_items_blocks (fuel : nat) (src : string)
    (chunk_size overlap : Z) (items : list DocItem) :
  ∀ (chunks : list Chunk) (counter : Z) st,
    process_items fuel src chunk_size overlap items (chunks, counter)
      = Some (Ok st) →
    ∃ new,
      st = (chunks ++ new, counter + len new)
      ∧ chunk_id <$> new
        = (λ k : nat, IntId (counter + Z.of_nat k)) <$> seq 1 (length new)
      ∧ Forall (chunk_invariant src) new.
Proof.
  induction items as [|item items IH]; intros chunks counter st.
  - intros [= <-]. exists []. rewrite app_nil_r.
    split; [f_equal; unfold len; cbn; lia|]. split; [done|constructor].
  - cbn [process_items].
    destruct (process_item fuel src chunk_size overlap item (chunks, counter))
      as [[st1|]|] eqn:Hitem; [|done..].
    apply process_item_block in Hitem as (block & -> & Hids & Hinv).
    intros Hrest. apply IH in Hrest as (new & -> & Hids' & Hinv').
    exists (block ++ new). rewrite <- app_assoc.
    split; [f_equal; rewrite len_app; lia|]. split.
    + rewrite fmap_app, length_app, seq_app, fmap_app, Hids, Hids'.
      f_equal. rewrite (Nat.add_comm 1 (length block)).
      rewrite <- (fmap_add_seq (length block)), <- list_fmap_compose.
      apply list_fmap_ext. intros _ k _. cbn. f_equal. unfold len. lia.
    + by apply Forall_app.
Qed.

(** X5.  The chunks of [extract_rag_chunks] are numbered 1, 2, 3, ... in
    the order of the list, without gap or repetition, whatever items were
    passed over or split. *)
Theorem extract_rag_chunks_ids (fuel : nat) (src : string)
    (items : list DocItem) (chunk_size overlap : Z) (chunks : list Chunk) :
  extract_rag_chunks fuel src items chunk_size overlap = Some (Ok chunks) →
  chunk_id <$> chunks
  = (λ k : nat, IntId (Z.of_nat k)) <$> seq 1 (length chunks).
Proof.
  unfold extract_rag_chunks.
  destruct (process_items _ _ _ _ _ _) as [[[chunks' n]|]|] eqn:Hrun; [|done..].
  intros [= <-]. apply process_items_blocks in Hrun as (new & [= -> _] & Hids & _).
  cbn [app]. rewrite Hids. apply list_fmap_ext. intros _ k _. f_equal.
Qed.

Lemma extract_rag_chunks_ids_witness :
  ∃ chunks,
    extract_rag_chunks 3 "doc.pdf" sample_items 1000 200 = Some (Ok chunks)
    ∧ length chunks = 5%nat
    ∧ chunk_id <$> chunks
      = (λ k : nat, IntId (Z.of_nat k)) <$> seq 1 (length chunks).
Proof.
  eexists. split; [vm_compute; reflexivity|]. split; [reflexivity|].
  apply (extract_rag_chunks_ids 3 "doc.pdf" sample_items 1000 200).
  vm_compute; reflexivity.
Defined.

(** X6.  Every chunk of [extract_rag_chunks] carries the source name, a
    [chunk_index] with [0 <= chunk_index < total_chunks] and a trimmed
    text; a chunk that is not partial has index 0 of 1 and a text that is
    not empty; a partial chunk never has the content type [table]. *)
Theorem extract_rag_chunks_invariant (fuel : nat) (src : string)
    (items : list DocItem) (chunk_size overlap : Z) (chunks : list Chunk) :
  extract_rag_chunks fuel src items chunk_size overlap = Some (Ok chunks) →
  Forall (chunk_invariant src) chunks.
Proof.
  unfold extract_rag_chunks.
  destruct (process_items _ _ _ _ _ _) as [[[chunks' n]|]|] eqn:Hrun; [|done..].
  intros [= <-].
  by apply process_items_blocks in Hrun as (new & [= -> _] & _ & Hinv).
Qed.

Lemma extract_rag_chunks_invariant_witness :
  ∃ chunks,
    extract_rag_chunks 3 "doc.pdf" sample_items 1000 200 = Some (Ok chunks)
    ∧ Forall (chunk_invariant "doc.pdf") chunks.
Proof.
  eexists. split; [vm_compute; reflexivity|].
  apply (extract_rag_chunks_invariant 3 "doc.pdf" sample_items 1000 200).
  vm_compute; reflexivity.
Defined.

(** X7.  The items passed over (no text, only whitespace, or an export to
    markdown that raised) leave no trace: the run on all the items is the
    run on the other items, chunk numbers included. *)
Theorem extract_rag_chunks_skips (fuel : nat) (src : string)
    (items : list DocItem) (chunk_size overlap : Z) :
  extract_rag_chunks fuel src items chunk_size overlap
  = extract_rag_chunks fuel src
      (List.filter (λ item, negb (item_is_skipped item)) items)
      chunk_size overlap.
Proof.
  unfold extract_rag_chunks. generalize (@nil Chunk, 0).
  induction items as [|item items IH]; intros st; [done|].
  cbn [List.filter process_items].
  destruct (item_is_skipped item) eqn:Hskip; cbn [negb].
  - rewrite item_is_skipped_process by done. apply IH.
  - cbn [process_items].
    destruct (process_item fuel src chunk_size overlap item st)
      as [[st1|]|]; [apply IH|done..].
Qed.

(** ** extract_tables_for_rag and the file that main writes *)

Section TablesProperties.
Variable item_str : DocItem → str.

Lemma table_steps (src : string) (items : list DocItem) :
  ∀ (table_chunks : list ChunkDict) (table_id : Z),
    foldl (table_step item_str src) (table_chunks, table_id) items =
    (table_chunks
       ++ imap (λ (k : nat) item,
                  table_dict src (table_id + Z.of_nat k + 1)
                    (first_page_no (item_prov item))
                    (table_text item_str item))
            (List.filter is_table_item items),
     table_id + len (List.filter is_table_item items)).
Proof.
  induction items as [|item items IH]; intros table_chunks table_id.
  - cbn. rewrite app_nil_r. f_equal. unfold len. cbn. lia.
  - cbn [foldl List.filter]. unfold table_step at 2.
    change (bool_decide (item_label item = Some "table"%string))
      with (is_table_item item).
    destruct (is_table_item item).
    + rewrite IH, imap_cons, <- app_assoc. cbn [app]. f_equal.
      * f_equal. f_equal.
        -- apply (f_equal (λ n, table_dict src n _ _)). lia.
        -- apply imap_ext. intros k x _. cbn.
           apply (f_equal (λ n, table_dict src n _ _)). lia.
      * unfold len. cbn [length]. lia.
    + apply IH.
Qed.

(** X8.  [extract_tables_for_rag] returns one chunk for every item
    labelled [table] and for no other item, in the order of the document,
    numbered [table_1], [table_2], ...; the text is the markdown of the
    table, or [str(item)] when there is no export or the export raises; a
    table whose text is blank is kept. *)
Theorem extract_tables_for_rag_tables (src : string) (items : list DocItem) :
  extract_tables_for_rag item_str src items =
    imap (λ (k : nat) item,
            table_dict src (Z.of_nat k + 1)
              (first_page_no (item_prov item)) (table_text item_str item))
      (List.filter is_table_item items)
  ∧ length (extract_tables_for_rag item_str src items)
    = length (List.filter is_table_item items).
Proof.
  unfold extract_tables_for_rag. rewrite table_steps. cbn [fst app].
  split; [|by rewrite length_imap].
  apply imap_ext. intros k x _. cbn.
  apply (f_equal (λ n, table_dict src n _ _)). lia.
Qed.

Lemma prepare_chunks_loaded_app
    (include_types exclude_types : option (gset string))
    (chunks1 chunks2 : list ChunkDict) :
  ∀ st,
    prepare_chunks_loaded include_types exclude_types st (chunks1 ++ chunks2)
    = lookup_bind
        (prepare_chunks_loaded include_types exclude_types st chunks1)
        (λ st', prepare_chunks_loaded include_types exclude_types st' chunks2).
Proof.
  induction chunks1 as [|c chunks1 IH]; intros st; [done|].
  cbn [app prepare_chunks_loaded].
  destruct (prepare_chunk_loaded include_types exclude_types st c); [|done].
  apply IH.
Qed.

Lemma prepare_chunk_loaded_chunk_dict
    (include_types exclude_types : option (gset string))
    (st : list string * list str * list MetadataDict) (c : Chunk) :
  prepare_chunk_loaded include_types exclude_types st (chunk_dict c)
  = Found (prepare_chunk include_types exclude_types st c).
Proof.
  unfold prepare_chunk_loaded, prepare_chunk.
  destruct st as [[ids documents] metadatas]. cbn.
  destruct (truthy include_types && _); [done|].
  by destruct (truthy exclude_types && _).
Qed.

Lemma prepare_chunks_loaded_chunk_dicts
    (include_types exclude_types : option (gset string))
    (chunks : list Chunk) :
  ∀ st,
    prepare_chunks_loaded include_types exclude_types st (chunk_dict <$> chunks)
    = Found (foldl (prepare_chunk include_types exclude_types) st chunks).
Proof.
  induction chunks as [|c chunks IH]; intros st; [done|].
  cbn [fmap list_fmap prepare_chunks_loaded foldl].
  rewrite prepare_chunk_loaded_chunk_dict. cbn [lookup_bind]. apply IH.
Qed.

(** X9.  On the dictionaries written by [extract_rag_chunks] no key is
    missing: [prepare_chunk_data] raises no KeyError and returns the three
    lists computed from the chunks. *)
Theorem prepare_chunk_data_loaded_chunks (chunks : list Chunk)
    (include_types exclude_types : option (gset string)) :
  prepare_chunk_data_loaded (chunk_dict <$> chunks) include_types exclude_types
  = Found (prepare_chunk_data chunks include_types exclude_types).
Proof. apply prepare_chunks_loaded_chunk_dicts. Qed.

(** X10.  A file written by [main] with [--include-tables] for a document
    that has a table cannot be prepared for ingestion unless the filters
    leave the content type [table] out: the chunks of
    [extract_tables_for_rag] have no [chunk_index], and
    [prepare_chunk_data] raises KeyError on the first of them. *)
Theorem prepare_chunk_data_loaded_tables (fuel : nat) (src : string)
    (items items_again : list DocItem) (chunk_size overlap : Z)
    (saved : list ChunkDict)
    (include_types exclude_types : option (gset string)) :
  main_chunks item_str fuel src items items_again chunk_size overlap true
    = Some (Ok saved) →
  (∃ item, item ∈ items_again ∧ item_label item = Some "table"%string) →
  passes_type_filters include_types exclude_types "table" = true →
  prepare_chunk_data_loaded saved include_types exclude_types
  = KeyError "chunk_index".
Proof.
  unfold main_chunks.
  destruct (extract_rag_chunks fuel src items chunk_size overlap)
    as [[chunks|]|]; [|done..].
  intros Hsaved (item & Hin & Hlabel) Hpass.
  assert (∃ t rest, List.filter is_table_item items_again = t :: rest)
    as (t & rest & Hfilter).
  { destruct (List.filter is_table_item items_again) as [|t rest] eqn:Hf;
      [|eauto].
    assert (In item (List.filter is_table_item items_again)) as Hitem; [|by rewrite Hf in Hitem].
    apply filter_In. split; [by apply list_elem_of_In|].
    unfold is_table_item. by apply bool_decide_eq_true. }
  pose proof (proj1 (extract_tables_for_rag_tables src items_again)) as Htables.
  rewrite Hfilter, imap_cons in Htables. rewrite Htables in Hsaved.
  injection Hsaved as <-.
  unfold prepare_chunk_data_loaded.
  rewrite prepare_chunks_loaded_app, prepare_chunks_loaded_chunk_dicts.
  cbn [lookup_bind prepare_chunks_loaded].
  destruct (foldl _ _ chunks) as [[ids documents] metadatas].
  unfold prepare_chunk_loaded, table_dict. cbn.
  rewrite <- prepare_chunk_keeps in Hpass.
  apply andb_true_iff in Hpass as [Hinc Hexc].
  apply negb_true_iff in Hinc, Hexc. by rewrite Hinc, Hexc.
Qed.

Lemma prepare_chunks_loaded_skip_tables (src : string)
    (include_types exclude_types : option (gset string))
    (tables : list DocItem) :
  passes_type_filters include_types exclude_types "table" = false →
  ∀ (n : Z) st,
    prepare_chunks_loaded include_types exclude_types st
      (imap (λ (k : nat) item,
               table_dict src (n + Z.of_nat k + 1)
                 (first_page_no (item_prov item)) (table_text item_str item))
         tables)
    = Found st.
Proof.
  intros Hpass. rewrite <- prepare_chunk_keeps in Hpass.
  induction tables as [|t tables IH]; intros n st; [done|].
  rewrite imap_cons. cbn [prepare_chunks_loaded].
  assert (prepare_chunk_loaded include_types exclude_types st
            (table_dict src (n + Z.of_nat 0 + 1) (first_page_no (item_prov t))
               (table_text item_str t)) = Found st) as ->.
  { unfold prepare_chunk_loaded, table_dict.
    destruct st as [[ids documents] metadatas]. cbn.
    destruct (truthy include_types && _); [done|].
    destruct (truthy exclude_types && _); [done|]. done. }
  cbn [lookup_bind].
  rewrite <- (IH (n + 1) st). f_equal. apply imap_ext. intros k x _. cbn.
  apply (f_equal (λ n, table_dict src n _ _)). lia.
Qed.

(** X11.  When the filters leave the content type [table] out, the file
    written by [main] with [--include-tables] is prepared without error,
    and what is prepared is what the chunks of [extract_rag_chunks] alone
    give: nothing of [extract_tables_for_rag] is ingested. *)
Theorem prepare_chunk_data_loaded_tables_excluded (fuel : nat) (src : string)
    (items items_again : list DocItem) (chunk_size overlap : Z)
    (chunks : list Chunk) (saved : list ChunkDict)
    (include_types exclude_types : option (gset string)) :
  extract_rag_chunks fuel src items chunk_size overlap = Some (Ok chunks) →
  main_chunks item_str fuel src items items_again chunk_size overlap true
    = Some (Ok saved) →
  passes_type_filters include_types exclude_types "table" = false →
  prepare_chunk_data_loaded saved include_types exclude_types
  = Found (prepare_chunk_data chunks include_types exclude_types).
Proof.
  unfold main_chunks. intros -> Hsaved Hpass.
  assert (saved = (chunk_dict <$> chunks)
                  ++ extract_tables_for_rag item_str src items_again) as ->.
  { destruct (extract_tables_for_rag item_str src items_again);
      injection Hsaved as <-; [by rewrite app_nil_r|done]. }
  unfold prepare_chunk_data_loaded.
  rewrite prepare_chunks_loaded_app, prepare_chunks_loaded_chunk_dicts.
  cbn [lookup_bind].
  rewrite (proj1 (extract_tables_for_rag_tables src items_again)).
  unfold prepare_chunk_data.
  erewrite imap_ext;
    [apply (prepare_chunks_loaded_skip_tables src include_types exclude_types
              (List.filter is_table_item items_again) Hpass 0)|].
  intros k x _. cbn.
  apply (f_equal (λ n, table_dict src n _ _)). lia.
Qed.
End TablesProperties.

Lemma prepare_chunk_data_loaded_tables_witness :
  ∃ saved,
    main_chunks sample_item_str 3 "doc.pdf" sample_items sample_items
      1000 200 true = Some (Ok saved)
    ∧ length saved = 7%nat
    ∧ (∃ item, item ∈ sample_items ∧ item_label item = Some "table"%string)
    ∧ prepare_chunk_data_loaded saved None None = KeyError "chunk_index".
Proof.
  assert (∃ item, item ∈ sample_items ∧ item_label item = Some "table"%string)
    as Htable.
  { exists (table_item (py_str "   ")). split; [|reflexivity].
    unfold sample_items. set_solver. }
  eexists. split; [vm_compute; reflexivity|]. split; [reflexivity|].
  split; [exact Htable|].
  apply (prepare_chunk_data_loaded_tables sample_item_str 3 "doc.pdf"
           sample_items sample_items 1000 200);
    [vm_compute; reflexivity|exact Htable|reflexivity].
Defined.

Lemma prepare_chunk_data_loaded_tables_excluded_witness :
  ∃ chunks saved,
    extract_rag_chunks 3 "doc.pdf" sample_items 1000 200 = Some (Ok chunks)
    ∧ main_chunks sample_item_str 3 "doc.pdf" sample_items sample_items
        1000 200 true = Some (Ok saved)
    ∧ passes_type_filters None (Some {[ "table"%string ]}) "table" = false
    ∧ prepare_chunk_data_loaded saved None (Some {[ "table"%string ]})
      = Found (prepare_chunk_data chunks None (Some {[ "table"%string ]})).
Proof.
  eexists _, _. split; [vm_compute; reflexivity|].
  split; [vm_compute; reflexivity|]. split; [vm_compute; reflexivity|].
  apply (prepare_chunk_data_loaded_tables_excluded sample_item_str 3 "doc.pdf"
           sample_items sample_items 1000 200);
    [vm_compute; reflexivity..].
Defined.

(** ** From the chunks of a document to the ids of the collection *)

Lemma str_of_Z_inj (n m : Z) : str_of_Z n = str_of_Z m → n = m.
Proof.
  unfold str_of_Z. intros H.
  apply (f_equal NilEmpty.int_of_string) in H.
  rewrite !NilEmpty.isi in H. injection H as H.
  apply (f_equal Z.of_int) in H. by rewrite !DecimalZ.of_to in H.
Qed.

Lemma format_chunk_id_IntId_inj (n m : Z) :
  format_chunk_id (IntId n) = format_chunk_id (IntId m) → n = m.
Proof. unfold format_chunk_id. intros [= H]. by apply str_of_Z_inj. Qed.

Lemma filter_sublist {A} (f : A → bool) (l : list A) :
  List.filter f l `sublist_of` l.
Proof.
  induction l as [|x l IH]; [done|]. cbn.
  destruct (f x); [by apply sublist_skip|by apply sublist_cons].
Qed.

(** X12.  The ids that [prepare_chunk_data] makes of the chunks of one run
    of [extract_rag_chunks] are pairwise distinct, whatever the filters:
    the decimal form of the chunk number determines the number. *)
Theorem prepare_chunk_data_ids_distinct (fuel : nat) (src : string)
    (items : list DocItem) (chunk_size overlap : Z) (chunks : list Chunk)
    (include_types exclude_types : option (gset string)) :
  extract_rag_chunks fuel src items chunk_size overlap = Some (Ok chunks) →
  NoDup (prepare_chunk_data chunks include_types exclude_types).1.1.
Proof.
  intros Hrun. unfold prepare_chunk_data.
  rewrite prepare_chunk_data_acc. cbn [fst app].
  refine (sublist_NoDup _ _ _ (fmap_sublist _ _ _ (filter_sublist _ chunks))).
  rewrite (list_fmap_compose chunk_id format_chunk_id).
  unfold extract_rag_chunks in Hrun.
  destruct (process_items _ _ _ _ _ _) as [[[chunks' n]|]|] eqn:Hitems;
    [|done..].
  injection Hrun as ->.
  apply process_items_blocks in Hitems as (new & [= -> _] & Hids & _).
  cbn [app]. rewrite Hids, <- list_fmap_compose.
  apply NoDup_fmap_2_strong; [|apply NoDup_seq].
  intros j k _ _ Heq. cbn in Heq. apply format_chunk_id_IntId_inj in Heq. lia.
Qed.

Lemma prepare_chunk_data_ids_distinct_witness :
  ∃ chunks,
    extract_rag_chunks 3 "doc.pdf" sample_items 1000 200 = Some (Ok chunks)
    ∧ (prepare_chunk_data chunks None None).1.1
      = ["chunk_1"; "chunk_2"; "chunk_3"; "chunk_4"; "chunk_5"]%string
    ∧ NoDup (prepare_chunk_data chunks None None).1.1.
Proof.
  eexists. split; [vm_compute; reflexivity|].
  split; [vm_compute; reflexivity|].
  apply (prepare_chunk_data_ids_distinct 3 "doc.pdf" sample_items 1000 200).
  vm_compute; reflexivity.
Defined.

(** ** ingest_to_chromadb: edges of the batch loop *)

Section IngestionEdges.
Context {Collection : Type}.
Variable collection_add :
  Collection → list string → list str → list MetadataDict →
  Collection * option string.
Variable collection_count : Collection → Z.

(** Without a chunk that passes the filters the function returns before
    the batch loop, on the collection it was given. *)
Lemma ingest_to_chromadb_no_documents (collection : Collection)
    (chunks : list Chunk) (collection_name : option string)
    (include_types exclude_types : option (gset string))
    (batch_size : option Z) :
  Forall (λ c, passes_type_filters include_types exclude_types
                 (content_type (metadata c)) = false) chunks →
  ingest_to_chromadb collection_add collection_count collection chunks
    collection_name include_types exclude_types batch_size
  = (collection, [Print NoChunksToIngest], tt).
Proof.
  intros Hnone. unfold ingest_to_chromadb, prepare_chunk_data.
  rewrite prepare_chunk_data_acc. cbv zeta.
  assert (List.filter
            (λ c, passes_type_filters include_types exclude_types
                    (content_type (metadata c))) chunks = []) as ->.
  { induction Hnone as [|c chunks Hc _ IH]; [done|]. cbn. by rewrite Hc. }
  done.
Qed.

(** The calls of the batch loop, when there is something to ingest. *)
Lemma ingest_to_chromadb_add_calls (collection : Collection)
    (chunks : list Chunk) (collection_name : option string)
    (include_types exclude_types : option (gset string))
    (batch_size : option Z) :
  let prepared := prepare_chunk_data chunks include_types exclude_types in
  let run := ingest_to_chromadb collection_add collection_count collection
               chunks collection_name include_types exclude_types
               batch_size in
  prepared.1.2 ≠ [] →
  add_calls run.1.2 =
    batch_at (effective_batch_size batch_size) prepared.1.1 prepared.1.2
      prepared.2
      <$> range0 (len prepared.1.2) (effective_batch_size batch_size)
  ∧ run.1.1 = after_calls collection_add collection (add_calls run.1.2).
Proof.
  intros prepared run Hne. subst run. unfold ingest_to_chromadb.
  fold prepared.
  rewrite (surjective_pairing prepared), (surjective_pairing prepared.1).
  destruct prepared.1.2 as [|d documents'] eqn:Hdocs; [done|].
  rewrite <- Hdocs. unfold ingest_batches.
  pose proof (ingest_batches_trace collection_add
                (effective_batch_size batch_size) prepared.1.1 prepared.1.2
                prepared.2
                (range0 (len prepared.1.2) (effective_batch_size batch_size))
                collection
                [Print (IngestingChunks (effective_batch_size batch_size))])
    as Hloop.
  cbv zeta in Hloop. destruct (foldl _ _ _) as [collection' trace'].
  cbn [fst snd] in *. destruct Hloop as (Hcalls & _ & Hcoll & _).
  cbn [add_calls app] in Hcalls.
  rewrite add_calls_app, Hcalls.
  change (add_calls (final_statistics _ _)) with
    (@nil (list string * list str * list MetadataDict)).
  rewrite app_nil_r. by split.
Qed.

(** With a negative batch size the batch loop has no iteration. *)
Lemma ingest_to_chromadb_negative_batch (collection : Collection)
    (chunks : list Chunk) (collection_name : option string)
    (include_types exclude_types : option (gset string)) (b : Z) :
  b < 0 →
  let run := ingest_to_chromadb collection_add collection_count collection
               chunks collection_name include_types exclude_types
               (Some b) in
  add_calls run.1.2 = [] ∧ run.1.1 = collection
  ∧ ((prepare_chunk_data chunks include_types exclude_types).1.2 ≠ [] →
     run.1.2 = Print (IngestingChunks b)
               :: final_statistics (collection_count collection)
                    (effective_collection_name collection_name)).
Proof.
  intros Hb run.
  assert (effective_batch_size (Some b) = b) as Hsize.
  { unfold effective_batch_size. by destruct (Z.eqb_spec b 0); [lia|]. }
  destruct (prepare_chunk_data chunks include_types exclude_types).1.2
    as [|d documents'] eqn:Hdocs.
  - subst run. unfold ingest_to_chromadb.
    rewrite (surjective_pairing (prepare_chunk_data _ _ _)),
      (surjective_pairing (prepare_chunk_data _ _ _).1), Hdocs.
    by repeat split.
  - subst run. unfold ingest_to_chromadb.
    rewrite (surjective_pairing (prepare_chunk_data _ _ _)),
      (surjective_pairing (prepare_chunk_data _ _ _).1), Hdocs.
    unfold ingest_batches, range0. rewrite Hsize.
    destruct (Z.ltb_spec 0 b); [lia|]. cbn. by repeat split.
Qed.

Lemma batch_at_shape (BATCH_SIZE : Z) (ids : list string)
    (documents : list str) (metadatas : list MetadataDict) (i : Z) :
  length ids = length documents → length documents = length metadatas →
  0 < BATCH_SIZE → 0 ≤ i < len documents →
  let batch := batch_at BATCH_SIZE ids documents metadatas i in
  length batch.1.1 = length batch.1.2
  ∧ length batch.1.2 = length batch.2
  ∧ 1 ≤ len batch.1.2 ≤ BATCH_SIZE.
Proof.
  intros Hids Hmetas Hsize Hi. unfold batch_at. cbn [fst snd].
  assert (len ids = len documents) as Hids' by (unfold len; lia).
  assert (len metadatas = len documents) as Hmetas' by (unfold len; lia).
  assert (∀ {A} (l : list A), len l = len documents →
            len (slice l i (Z.min (i + BATCH_SIZE) (len documents)))
            = Z.min (i + BATCH_SIZE) (len documents) - i) as Hslice.
  { intros A l Hl. apply len_slice_in_range; lia. }
  pose proof (Hslice _ ids Hids') as H1.
  pose proof (Hslice _ documents eq_refl) as H2.
  pose proof (Hslice _ metadatas Hmetas') as H3.
  unfold len in *. lia.
Qed.

(** X15.  With a positive batch size and something to ingest,
    [collection.add] is called [total_batches] times, that is
    [(len(documents) + BATCH_SIZE - 1) // BATCH_SIZE] times, and every
    call carries ids, documents and metadata of the same length, between 1
    and [BATCH_SIZE]; the batch size is 100 when none, or 0, is given. *)
Theorem ingest_to_chromadb_batch_shapes (collection : Collection)
    (chunks : list Chunk) (collection_name : option string)
    (include_types exclude_types : option (gset string))
    (batch_size : option Z) :
  let prepared := prepare_chunk_data chunks include_types exclude_types in
  let BATCH_SIZE := effective_batch_size batch_size in
  let run := ingest_to_chromadb collection_add collection_count collection
               chunks collection_name include_types exclude_types
               batch_size in
  prepared.1.2 ≠ [] → 0 < BATCH_SIZE →
  Z.of_nat (length (add_calls run.1.2))
  = (len prepared.1.2 + BATCH_SIZE - 1) `div` BATCH_SIZE
  ∧ Forall (λ batch, length batch.1.1 = length batch.1.2
                     ∧ length batch.1.2 = length batch.2
                     ∧ 1 ≤ len batch.1.2 ≤ BATCH_SIZE)
      (add_calls run.1.2)
  ∧ (batch_size = None ∨ batch_size = Some 0 → BATCH_SIZE = 100).
Proof.
  intros prepared BATCH_SIZE run Hne Hsize.
  destruct (ingest_to_chromadb_add_calls collection chunks collection_name
              include_types exclude_types batch_size Hne) as [Hcalls _].
  fold run prepared BATCH_SIZE in Hcalls. rewrite Hcalls.
  assert (length prepared.1.1 = length prepared.1.2
          ∧ length prepared.1.2 = length prepared.2) as [Hids Hmetas].
  { subst prepared. unfold prepare_chunk_data.
    rewrite prepare_chunk_data_acc. cbn. by rewrite !length_fmap. }
  pose proof (len_nonneg prepared.1.2) as Hlen.
  split; [|split].
  - rewrite length_fmap. unfold range0.
    destruct (Z.ltb_spec 0 BATCH_SIZE); [|lia].
    rewrite length_fmap, length_seq.
    apply Z2Nat.id, Z.div_pos; lia.
  - apply Forall_fmap, Forall_forall. intros i Hi. cbn.
    apply batch_at_shape; [done..|].
    unfold range0 in Hi. destruct (Z.ltb_spec 0 BATCH_SIZE); [|lia].
    apply list_elem_of_fmap in Hi as (k & -> & Hk).
    apply elem_of_seq in Hk.
    split; [lia|]. apply range0_index_lt; lia.
  - subst BATCH_SIZE. by intros [->| ->].
Qed.
End IngestionEdges.

Lemma ingest_to_chromadb_batch_shapes_witness :
  (prepare_chunk_data sample_chunks None None).1.2 ≠ []
  ∧ 0 < effective_batch_size (Some 2)
  ∧ Z.of_nat (length (add_calls (ingest_to_chromadb sample_add len []
                                   sample_chunks None None None
                                   (Some 2)).1.2))
    = (len (prepare_chunk_data sample_chunks None None).1.2 + 2 - 1) `div` 2.
Proof.
  assert ((prepare_chunk_data sample_chunks None None).1.2 ≠ []) as Hne
    by (lazy; discriminate).
  split; [exact Hne|]. split; [reflexivity|].
  pose proof (ingest_to_chromadb_batch_shapes sample_add len []
                sample_chunks None None None (Some 2)) as H.
  cbv zeta in H. apply H; [exact Hne|reflexivity].
Defined.

(** ** Filters on the metadata that ingestion writes *)

Lemma chunk_metadata_is_table (chunk : Chunk) :
  chunk_metadata chunk !! "is_table"%string
  = Some (VBool (bool_decide (content_type (metadata chunk)
                              ∈ ChromaDBConfig.TABLE_CONTENT_TYPES))).
Proof. reflexivity. Qed.

Lemma chunk_metadata_content_type (chunk : Chunk) :
  chunk_metadata chunk !! "content_type"%string
  = Some (VStr (content_type (metadata chunk))).
Proof. reflexivity. Qed.

(** X16.  On the metadata that [prepare_chunk_data] writes, the filter of
    [search_tables_only] selects the chunks whose content type is [table]
    or [document_index], and the filter of [search_by_content_type] the
    chunks of exactly the type asked for. *)
Theorem search_filters_on_ingested_chunks {Distance}
    (self : ChromaDBQuerier Distance) (query : str) (ctype : string)
    (n : Z) (chunk : Chunk) :
  (∃ filter,
     search_tables_only self query n =
       collection_query self
         (similarity_search_request (config self) query n (Some filter) None)
     ∧ (matches filter (chunk_metadata chunk) = true
        ↔ content_type (metadata chunk) = "table"%string
          ∨ content_type (metadata chunk) = "document_index"%string))
  ∧ (∃ filter,
       search_by_content_type self query ctype n =
         collection_query self
           (similarity_search_request (config self) query n (Some filter) None)
       ∧ (matches filter (chunk_metadata chunk) = true
          ↔ content_type (metadata chunk) = ctype)).
Proof.
  split.
  - eexists. split; [reflexivity|]. cbn [matches].
    rewrite chunk_metadata_is_table.
    destruct (bool_decide _) eqn:Hd; cbn.
    + apply bool_decide_eq_true in Hd. split; [intros _|done].
      unfold ChromaDBConfig.TABLE_CONTENT_TYPES in Hd. set_solver.
    + apply bool_decide_eq_false in Hd. split; [done|]. intros H.
      exfalso. apply Hd. unfold ChromaDBConfig.TABLE_CONTENT_TYPES.
      set_solver.
  - eexists. split; [reflexivity|]. cbn [matches].
    rewrite chunk_metadata_content_type. apply String.eqb_eq.
Qed.

Lemma matches_page_range (page_min page_max : option Z) (m : MetadataDict)
    (p : Z) :
  m !! "page"%string = Some (VInt p) →
  matches (page_range_filter page_min page_max) m = true
  ↔ (∀ lo, page_min = Some lo → lo ≤ p) ∧ (∀ hi, page_max = Some hi → p ≤ hi).
Proof.
  intros Hp.
  destruct page_min as [lo|], page_max as [hi|];
    cbn [page_range_filter matches forallb]; rewrite ?Hp.
  - rewrite andb_true_r, andb_true_iff, !Z.leb_le. split.
    + intros [Hlo Hhi]. split; by intros ? [= <-].
    + intros [Hlo Hhi]. split; [by apply Hlo|by apply Hhi].
  - rewrite Z.leb_le. split.
    + intros Hlo. split; [by intros ? [= <-]|done].
    + intros [Hlo _]. by apply Hlo.
  - rewrite Z.leb_le. split.
    + intros Hhi. split; [done|by intros ? [= <-]].
    + intros [_ Hhi]. by apply Hhi.
  - done.
Qed.

(** X17.  A chunk whose page is unknown is ingested with page 0, as a
    chunk of page 0 is: the filter of [search_by_page_range] selects it
    exactly when 0 respects the bounds given, so a search with only an
    upper bound that is not negative returns the chunks without page. *)
Theorem page_range_on_unknown_page (page_min page_max : option Z)
    (chunk : Chunk) :
  page (metadata chunk) = None →
  (matches (page_range_filter page_min page_max) (chunk_metadata chunk) = true
   ↔ (∀ lo, page_min = Some lo → lo ≤ 0) ∧ (∀ hi, page_max = Some hi → 0 ≤ hi))
  ∧ chunk_metadata chunk !! "page"%string = Some (VInt 0).
Proof.
  intros Hpage.
  assert (chunk_metadata chunk !! "page"%string = Some (VInt 0)) as Hp.
  { rewrite chunk_metadata_page. by rewrite Hpage. }
  split; [by apply matches_page_range|done].
Qed.

Lemma page_range_on_unknown_page_witness :
  page (metadata (partial_chunk "doc.pdf" "text" None 2 1 0 (py_str "a")))
  = None
  ∧ matches (page_range_filter None (Some 10))
      (chunk_metadata (partial_chunk "doc.pdf" "text" None 2 1 0 (py_str "a")))
    = true.
Proof.
  split; [reflexivity|].
  apply (proj1 (page_range_on_unknown_page None (Some 10)
                  (partial_chunk "doc.pdf" "text" None 2 1 0 (py_str "a"))
                  eq_refl)).
  split; [done|]. intros hi [= <-]. lia.
Defined.

(** ** Counting by content type *)

Lemma key_eqb_true (a b : Value) : key_eqb a b = true ↔ as_key a = as_key b.
Proof. apply bool_decide_eq_true. Qed.

Lemma key_eqb_false (a b : Value) : key_eqb a b = false ↔ as_key a ≠ as_key b.
Proof. apply bool_decide_eq_false. Qed.

Lemma key_eqb_eq_l (a b c : Value) :
  as_key a = as_key b → key_eqb a c = key_eqb b c.
Proof. unfold key_eqb. by intros ->. Qed.

Lemma counts_get_key (counts : Counts) (a b : Value) :
  as_key a = as_key b → counts_get counts a = counts_get counts b.
Proof.
  intros Hab. induction counts as [|[k m] rest IH]; [done|].
  cbn. unfold key_eqb. by rewrite Hab, IH.
Qed.

Lemma counts_get_set (counts : Counts) (key : Value) (n : Z) (key' : Value) :
  counts_get (counts_set counts key n) key'
  = if key_eqb key key' then n else counts_get counts key'.
Proof.
  induction counts as [|[k m] rest IH]; [done|].
  cbn [counts_set]. destruct (key_eqb k key) eqn:Hk.
  - apply key_eqb_true in Hk. cbn [counts_get].
    rewrite (key_eqb_eq_l k key key' Hk). by destruct (key_eqb key key').
  - cbn [counts_get]. rewrite IH.
    destruct (key_eqb k key') eqn:Hk'; [|done].
    destruct (key_eqb key key') eqn:Hkey; [|done].
    apply key_eqb_true in Hk', Hkey. apply key_eqb_false in Hk. congruence.
Qed.

Lemma counts_total_set (counts : Counts) (key : Value) (n : Z) :
  counts_total (counts_set counts key n)
  = counts_total counts - counts_get counts key + n.
Proof.
  unfold counts_total.
  induction counts as [|[k m] rest IH]; cbn; [lia|].
  destruct (key_eqb k key); cbn; [lia|]. rewrite IH. lia.
Qed.

Lemma counts_keys_set (counts : Counts) (key : Value) (n : Z) (k : Value) :
  k ∈ counts_keys (counts_set counts key n) →
  k ∈ counts_keys counts ∨ k = as_key key.
Proof.
  unfold counts_keys.
  induction counts as [|[k0 m] rest IH]; cbn.
  - rewrite list_elem_of_singleton. by right.
  - destruct (key_eqb k0 key); cbn; rewrite !elem_of_cons; [tauto|].
    intros [->|Hin]; [tauto|]. destruct (IH Hin); tauto.
Qed.

Lemma counts_keys_set_NoDup (counts : Counts) (key : Value) (n : Z) :
  NoDup (counts_keys counts) → NoDup (counts_keys (counts_set counts key n)).
Proof.
  induction counts as [|[k0 m] rest IH]; cbn.
  - intros _. apply NoDup_singleton.
  - destruct (key_eqb k0 key) eqn:Hk; [done|].
    change (NoDup (as_key k0 :: counts_keys rest)
            → NoDup (as_key k0 :: counts_keys (counts_set rest key n))).
    rewrite !NoDup_cons. intros [Hnotin Hnodup]. split; [|by apply IH].
    intros Hin. apply counts_keys_set in Hin as [Hin|Heq]; [done|].
    by apply key_eqb_false in Hk.
Qed.

(** The counting loop, from any dictionary on. *)
Lemma count_loop (keys : list Value) :
  ∀ counts : Counts,
    (∀ key, counts_get (foldl count_one counts keys) key
            = counts_get counts key + occurrences key keys)
    ∧ counts_total (foldl count_one counts keys)
      = counts_total counts + len keys
    ∧ (NoDup (counts_keys counts)
       → NoDup (counts_keys (foldl count_one counts keys))).
Proof.
  induction keys as [|k keys IH]; intros counts.
  - cbn [foldl]. split; [intros key; unfold occurrences, len; cbn; lia|].
    split; [unfold len; cbn [length]; lia|done].
  - cbn [foldl]. destruct (IH (count_one counts k)) as (Hget & Htotal & Hkeys).
    split; [|split].
    + intros key. rewrite Hget. unfold count_one. rewrite counts_get_set.
      unfold occurrences, len. cbn [List.filter].
      destruct (key_eqb k key) eqn:Hk.
      * rewrite (counts_get_key counts k key) by by apply key_eqb_true.
        cbn [length]. lia.
      * lia.
    + rewrite Htotal. unfold count_one. rewrite counts_total_set.
      unfold len. cbn [length]. lia.
    + intros Hnodup. by apply Hkeys, counts_keys_set_NoDup.
Qed.

(** X19.  [_get_content_type_counts] counts every document once: the
    counts add up to the number of documents, no key is listed twice, and
    the count of a key is the number of documents of that content type,
    where a document without metadata or without [content_type] counts as
    [unknown], together with the documents whose content type is the
    string [unknown]. *)
Theorem get_content_type_counts_counts
    (metadatas : list (option MetadataDict)) :
  let counts := _get_content_type_counts (Some metadatas) in
  (∀ key, counts_get counts key
          = occurrences key (content_type_key <$> metadatas))
  ∧ counts_total counts = len metadatas
  ∧ NoDup (counts_keys counts).
Proof.
  cbn zeta. unfold _get_content_type_counts.
  rewrite <- (foldl_fmap count_one [] metadatas content_type_key).
  destruct (count_loop (content_type_key <$> metadatas) [])
    as (Hget & Htotal & Hkeys).
  split; [|split].
  - intros key. rewrite Hget. cbn. lia.
  - rewrite Htotal. unfold counts_total, len. cbn. rewrite length_fmap. lia.
  - apply Hkeys. constructor.
Qed.

Lemma stats_step_raised (e : stats_exn) (metas : list (option MetadataDict)) :
  foldl stats_step (inl e) metas = inl e.
Proof. induction metas as [|m metas IH]; [done|]. apply IH. Qed.

Lemma stats_loop (metas : list (option MetadataDict)) :
  ∀ counts : Counts,
    match foldl stats_step (inr counts) metas with
    | inr counts' =>
        counts' = foldl count_one counts (content_type_key <$> metas)
        ∧ Forall (λ m, ∃ d, m = Some d ∧ is_Some (d !! "content_type"%string))
            metas
    | inl StatsTypeError => None ∈ metas
    | inl (StatsKeyError key) =>
        key = "content_type"%string
        ∧ ∃ d, Some d ∈ metas ∧ d !! "content_type"%string = None
    end.
Proof.
  induction metas as [|m metas IH]; intros counts; [by cbn|].
  cbn [foldl]. unfold stats_step at 2.
  destruct m as [d|].
  - destruct (d !! "content_type"%string) as [ctype|] eqn:Hd.
    + specialize (IH (count_one counts ctype)).
      destruct (foldl stats_step _ metas) as [[|key]|counts'].
      * by apply list_elem_of_further.
      * destruct IH as (-> & d' & Hin & Hnone). split; [done|].
        exists d'. split; [by apply list_elem_of_further|done].
      * destruct IH as (-> & Hall). split.
        -- cbn. unfold content_type_key at 2. by rewrite Hd.
        -- constructor; [|done]. exists d. by rewrite Hd.
    + rewrite stats_step_raised. split; [done|].
      exists d. split; [apply list_elem_of_here|done].
  - rewrite stats_step_raised. apply list_elem_of_here.
Qed.

Lemma stats_loop_counted (metas : list (option MetadataDict)) :
  Forall has_content_type metas →
  ∀ counts : Counts,
    foldl stats_step (inr counts) metas
    = inr (foldl count_one counts (content_type_key <$> metas)).
Proof.
  induction 1 as [|m metas (d & -> & ctype & Hd) _ IH]; intros counts;
    [done|].
  cbn [foldl fmap list_fmap]. unfold stats_step at 2. rewrite Hd.
  replace (content_type_key (Some d)) with ctype
    by (unfold content_type_key; by rewrite Hd).
  apply IH.
Qed.

Lemma stats_loop_first_uncounted (before after : list (option MetadataDict))
    (meta : option MetadataDict) (counts : Counts) :
  Forall has_content_type before →
  foldl stats_step (inr counts) (before ++ meta :: after)
  = match meta with
    | None => inl StatsTypeError
    | Some d =>
        match d !! "content_type"%string with
        | None => inl (StatsKeyError "content_type")
        | Some ctype =>
            foldl stats_step
              (inr (count_one
                      (foldl count_one counts (content_type_key <$> before))
                      ctype))
              after
        end
    end.
Proof.
  intros Hbefore. rewrite foldl_app, (stats_loop_counted before Hbefore).
  cbn [foldl]. unfold stats_step at 2.
  destruct meta as [d|]; [|apply stats_step_raised].
  destruct (d !! "content_type"%string); [done|apply stats_step_raised].
Qed.

(** X20.  [get_collection_stats] reports the number of documents of the
    collection but counts the content types of the documents that
    [get] returns for the limit [min(1000, total)] only.  When every
    document of that sample has metadata with a [content_type], the call
    returns and the distribution adds up to the size of the sample, each
    key counting the documents of that type.  Otherwise the first
    document of the sample that has no metadata, or no [content_type],
    decides: the call raises TypeError for the one, KeyError for the
    other. *)
Theorem get_collection_stats_sample (COLLECTION_NAME : string)
    (collection_count : Z)
    (collection_get : Z → list (option MetadataDict)) :
  let sample := collection_get (Z.min 1000 collection_count) in
  let result := get_collection_stats COLLECTION_NAME collection_count
                  collection_get in
  (Forall has_content_type sample →
   ∃ stats,
     result = inr stats
     ∧ stats_total_documents stats = collection_count
     ∧ stats_collection_name stats = COLLECTION_NAME
     ∧ stats_sample_size stats = Z.min 1000 collection_count
     ∧ counts_total (stats_content_type_distribution stats) = len sample
     ∧ (∀ key, counts_get (stats_content_type_distribution stats) key
               = occurrences key (content_type_key <$> sample))
     ∧ NoDup (counts_keys (stats_content_type_distribution stats)))
  ∧ (∀ before after,
       sample = before ++ None :: after →
       Forall has_content_type before →
       result = inl StatsTypeError)
  ∧ (∀ before d after,
       sample = before ++ Some d :: after →
       Forall has_content_type before →
       d !! "content_type"%string = None →
       result = inl (StatsKeyError "content_type"))
  ∧ (Forall has_content_type sample
     ∨ ∃ before meta after,
         sample = before ++ meta :: after
         ∧ Forall has_content_type before
         ∧ (meta = None
            ∨ ∃ d, meta = Some d ∧ d !! "content_type"%string = None)).
Proof.
  cbv zeta. unfold get_collection_stats.
  set (sample := collection_get (Z.min 1000 collection_count)).
  split; [|split; [|split]].
  - intros Hall. rewrite (stats_loop_counted sample Hall).
    destruct (count_loop (content_type_key <$> sample) [])
      as (Hget & Htotal & Hkeys).
    eexists. split; [reflexivity|].
    cbn [stats_total_documents stats_collection_name stats_sample_size
         stats_content_type_distribution].
    split; [done|]. split; [done|]. split; [done|]. split; [|split].
    + rewrite Htotal. unfold counts_total, len. cbn. rewrite length_fmap. lia.
    + intros key. rewrite Hget. cbn. lia.
    + apply Hkeys. constructor.
  - intros before after -> Hbefore.
    by rewrite (stats_loop_first_uncounted before after None [] Hbefore).
  - intros before d after -> Hbefore Hd.
    rewrite (stats_loop_first_uncounted before after (Some d) [] Hbefore).
    by rewrite Hd.
  - clear. induction sample as [|meta sample [Hall|Hbad]].
    + left. constructor.
    + destruct meta as [d|].
      * destruct (d !! "content_type"%string) as [ctype|] eqn:Hd.
        -- left. constructor; [|done]. exists d. by rewrite Hd.
        -- right. exists [], (Some d), sample.
           split; [done|]. split; [constructor|]. right. by exists d.
      * right. exists [], None, sample.
        split; [done|]. split; [constructor|]. by left.
    + destruct Hbad as (before & bad & after & -> & Hbefore & Hkind).
      destruct meta as [d|].
      * destruct (d !! "content_type"%string) as [ctype|] eqn:Hd.
        -- right. exists (Some d :: before), bad, after.
           split; [done|]. split; [|done].
           constructor; [|done]. exists d. by rewrite Hd.
        -- right. exists [], (Some d), (before ++ bad :: after).
           split; [done|]. split; [constructor|]. right. by exists d.
      * right. exists [], None, (before ++ bad :: after).
        split; [done|]. split; [constructor|]. by left.
Qed.

(** ** Tables in a file written with [--include-tables] *)

Lemma process_item_whole (fuel : nat) (src : string) (chunk_size overlap : Z)
    (item : DocItem) (t : str) (chunks : list Chunk) (counter : Z) :
  get_item_text item = Some (Some t) →
  strip t ≠ [] →
  item_label item = Some "table"%string →
  process_item fuel src chunk_size overlap item (chunks, counter)
  = Some (Ok (chunks ++ [whole_chunk src item t (counter + 1)], counter + 1)).
Proof.
  intros Htext Hstrip Hlabel. unfold process_item. rewrite Htext.
  assert (t ≠ []) as Ht by (intros ->; by apply Hstrip).
  rewrite (bool_decide_eq_false_2 _ Ht), (bool_decide_eq_false_2 _ Hstrip).
  cbn [orb]. rewrite Hlabel. cbn [default].
  rewrite String.eqb_refl. cbn [negb]. rewrite andb_false_r.
  unfold whole_chunk. by rewrite Hlabel.
Qed.

Lemma process_items_whole (fuel : nat) (src : string) (chunk_size overlap : Z)
    (item : DocItem) (t : str) (items : list DocItem) :
  get_item_text item = Some (Some t) →
  strip t ≠ [] →
  item_label item = Some "table"%string →
  item ∈ items →
  ∀ (chunks : list Chunk) (counter : Z) st,
    process_items fuel src chunk_size overlap items (chunks, counter)
      = Some (Ok st) →
    ∃ n, whole_chunk src item t n ∈ st.1.
Proof.
  intros Htext Hstrip Hlabel.
  induction items as [|head items IH]; intros Hin chunks counter st.
  { by apply elem_of_nil in Hin. }
  cbn [process_items].
  destruct (process_item fuel src chunk_size overlap head (chunks, counter))
    as [[[chunks1 counter1]|]|] eqn:Hhead; [|done..].
  intros Hrest. apply elem_of_cons in Hin as [<-|Hin].
  - rewrite (process_item_whole _ _ _ _ _ t) in Hhead by done.
    injection Hhead as <- <-.
    apply process_items_blocks in Hrest as (new & -> & _).
    exists (counter + 1). cbn [fst]. rewrite <- app_assoc.
    apply elem_of_app. right. apply list_elem_of_here.
  - by apply (IH Hin chunks1 counter1).
Qed.

(** X21.  With [--include-tables], a table whose text is not blank is
    saved twice by [main] of [pdf_to_rag] when both conversions of the
    document give the same items: as a whole chunk of
    [extract_rag_chunks], with a number as id and its text trimmed, and as
    a chunk [table_<k>] of [extract_tables_for_rag]; for a table without
    [text] attribute both carry the same markdown. *)
Theorem main_chunks_tables_twice (item_str : DocItem → str) (fuel : nat)
    (src : string) (items : list DocItem) (chunk_size overlap : Z)
    (saved : list ChunkDict) (item : DocItem) (t : str) :
  main_chunks item_str fuel src items items chunk_size overlap true
    = Some (Ok saved) →
  item ∈ items →
  item_label item = Some "table"%string →
  get_item_text item = Some (Some t) →
  strip t ≠ [] →
  (∃ n, chunk_dict (whole_chunk src item t n) ∈ saved)
  ∧ (∃ k, table_dict src k (first_page_no (item_prov item))
            (table_text item_str item) ∈ saved)
  ∧ (item_text item = None → table_text item_str item = t).
Proof.
  intros Hrun Hin Hlabel Htext Hstrip.
  unfold main_chunks, extract_rag_chunks in Hrun.
  destruct (process_items fuel src chunk_size overlap items ([], 0))
    as [[[chunks counter]|]|] eqn:Hitems; [|done..].
  destruct (process_items_whole fuel src chunk_size overlap item t items
              Htext Hstrip Hlabel Hin [] 0 _ Hitems) as [n Hn].
  cbn [fst] in Hn.
  assert (∃ k, table_dict src k (first_page_no (item_prov item))
                 (table_text item_str item)
               ∈ extract_tables_for_rag item_str src items) as [k Hk].
  { unfold extract_tables_for_rag. rewrite table_steps. cbn [fst app].
    assert (item ∈ List.filter is_table_item items) as Hfilter.
    { apply list_elem_of_In, filter_In. split; [by apply list_elem_of_In|].
      by apply bool_decide_eq_true. }
    apply list_elem_of_lookup_1 in Hfilter as [j Hj].
    exists (0 + Z.of_nat j + 1). apply elem_of_lookup_imap.
    by exists j, item. }
  split; [|split].
  - exists n.
    assert (chunk_dict (whole_chunk src item t n) ∈ chunk_dict <$> chunks)
      as Hdict by by apply list_elem_of_fmap_2.
    destruct (extract_tables_for_rag item_str src items);
      injection Hrun as <-; [done|].
    apply elem_of_app. by left.
  - exists k.
    destruct (extract_tables_for_rag item_str src items) as [|tc tcs];
      [by apply elem_of_nil in Hk|].
    injection Hrun as <-. apply elem_of_app. by right.
  - intros Hnone. unfold get_item_text in Htext. rewrite Hnone in Htext.
    unfold table_text.
    destruct (item_export_to_markdown item) as [[md|]|]; congruence.
Qed.

Lemma main_chunks_tables_twice_witness :
  ∃ saved,
    main_chunks sample_item_str 3 "doc.pdf" sample_items sample_items
      1000 200 true = Some (Ok saved)
    ∧ (∃ n, chunk_dict (whole_chunk "doc.pdf" (table_item (py_str "| a | b |"))
                          (py_str "| a | b |") n) ∈ saved)
    ∧ (∃ k, table_dict "doc.pdf" k (Some 3) (py_str "| a | b |") ∈ saved)
    ∧ (item_text (table_item (py_str "| a | b |")) = None
       → table_text sample_item_str (table_item (py_str "| a | b |"))
         = py_str "| a | b |").
Proof.
  eexists. split; [vm_compute; reflexivity|].
  apply (main_chunks_tables_twice sample_item_str 3 "doc.pdf" sample_items
           1000 200).
  - vm_compute; reflexivity.
  - unfold sample_items. do 3 apply list_elem_of_further.
    apply list_elem_of_here.
  - reflexivity.
  - reflexivity.
  - vm_compute. discriminate.
Defined.

(** ** Ingestion from the client on *)

Section IngestionClientProperties.
Context {Client Collection : Type}.
Variable delete_collection : Client → string → Client * bool.
Variable get_or_create_collection :
  Client → string → string → Client * Collection.
Variable collection_add :
  Collection → list string → list str → list MetadataDict →
  Collection * option string.
Variable collection_count : Collection → Z.

(** The collection the function works on is the one that
    [get_or_create_collection] returns, asked after the deletion when
    [reset] is set; [delete_collection] is called in that case only. *)
Lemma open_collection_reset (client : Client) (name json_name : string)
    (reset : bool) :
  let client0 := if reset then (delete_collection client name).1 else client in
  let description := ("RAG chunks from " ++ json_name)%string in
  let opened := open_collection delete_collection get_or_create_collection
                  collection_count client name json_name reset in
  opened.1.1 = (get_or_create_collection client0 name description).1
  ∧ opened.1.2 = (get_or_create_collection client0 name description).2
  ∧ List.filter is_delete opened.2
    = if reset
      then [DeleteCollection name (delete_collection client name).2]
      else [].
Proof.
  unfold open_collection, reset_collection. destruct reset.
  - destruct (delete_collection client name) as [client1 [|]]; cbn [fst snd];
      by destruct (get_or_create_collection client1 name _).
  - by destruct (get_or_create_collection client name _).
Qed.

Lemma ingest_to_chromadb_from_client_run (client : Client)
    (json_name : string) (chunks : list Chunk)
    (collection_name : option string) (reset : bool)
    (include_types exclude_types : option (gset string))
    (batch_size : option Z) :
  let opened := open_collection delete_collection get_or_create_collection
                  collection_count client
                  (effective_collection_name collection_name) json_name
                  reset in
  ingest_to_chromadb_from_client delete_collection get_or_create_collection
    collection_add collection_count client json_name chunks collection_name
    reset include_types exclude_types batch_size
  = (opened.1.1, opened.2,
     ingest_to_chromadb collection_add collection_count opened.1.2 chunks
       collection_name include_types exclude_types batch_size).
Proof.
  cbv zeta. unfold ingest_to_chromadb_from_client.
  by destruct (open_collection _ _ _ _ _ _ _) as [[client1 collection] setup].
Qed.

(** X13.  When no chunk passes the filters (an empty file included),
    [ingest_to_chromadb] prints that there is nothing to ingest and
    returns without a call of [collection.add]: the collection is left as
    [get_or_create_collection] returned it.  Without [reset] the client
    receives no [delete_collection]; with [reset] the collection was
    deleted first and is asked for after that, so the run removes what the
    collection held although it ingests nothing. *)
Theorem ingest_to_chromadb_nothing_to_ingest (client : Client)
    (json_name : string) (chunks : list Chunk)
    (collection_name : option string) (reset : bool)
    (include_types exclude_types : option (gset string))
    (batch_size : option Z) :
  Forall (λ c, passes_type_filters include_types exclude_types
                 (content_type (metadata c)) = false) chunks →
  let name := effective_collection_name collection_name in
  let description := ("RAG chunks from " ++ json_name)%string in
  let client0 := if reset then (delete_collection client name).1 else client in
  let run := ingest_to_chromadb_from_client delete_collection
               get_or_create_collection collection_add collection_count
               client json_name chunks collection_name reset include_types
               exclude_types batch_size in
  run.2.1.2 = [Print NoChunksToIngest]
  ∧ add_calls run.2.1.2 = []
  ∧ run.2.1.1 = (get_or_create_collection client0 name description).2
  ∧ run.1.1 = (get_or_create_collection client0 name description).1
  ∧ List.filter is_delete run.1.2
    = if reset
      then [DeleteCollection name (delete_collection client name).2]
      else [].
Proof.
  intros Hnone. cbv zeta.
  rewrite ingest_to_chromadb_from_client_run. cbv zeta.
  rewrite ingest_to_chromadb_no_documents by done. cbn [fst snd].
  destruct (open_collection_reset client
              (effective_collection_name collection_name) json_name reset)
    as (Hclient & Hcollection & Hdelete).
  split; [done|]. split; [done|]. split; [exact Hcollection|].
  split; [exact Hclient|exact Hdelete].
Qed.

(** X14.  With a negative batch size the batch loop has no iteration:
    whatever the chunks, [collection.add] is never called and the
    collection is left as [get_or_create_collection] returned it, asked
    after the deletion when [reset] is set, although with chunks to ingest
    the run ends with the final statistics as after an ingestion. *)
Theorem ingest_to_chromadb_negative_batch_size (client : Client)
    (json_name : string) (chunks : list Chunk)
    (collection_name : option string) (reset : bool)
    (include_types exclude_types : option (gset string)) (b : Z) :
  b < 0 →
  let name := effective_collection_name collection_name in
  let description := ("RAG chunks from " ++ json_name)%string in
  let client0 := if reset then (delete_collection client name).1 else client in
  let collection := (get_or_create_collection client0 name description).2 in
  let run := ingest_to_chromadb_from_client delete_collection
               get_or_create_collection collection_add collection_count
               client json_name chunks collection_name reset include_types
               exclude_types (Some b) in
  add_calls run.2.1.2 = []
  ∧ run.2.1.1 = collection
  ∧ run.1.1 = (get_or_create_collection client0 name description).1
  ∧ List.filter is_delete run.1.2
    = (if reset
       then [DeleteCollection name (delete_collection client name).2]
       else [])
  ∧ ((prepare_chunk_data chunks include_types exclude_types).1.2 ≠ [] →
     run.2.1.2 = Print (IngestingChunks b)
                 :: final_statistics (collection_count collection) name).
Proof.
  intros Hb. cbv zeta.
  rewrite ingest_to_chromadb_from_client_run. cbv zeta. cbn [fst snd].
  destruct (open_collection_reset client
              (effective_collection_name collection_name) json_name reset)
    as (Hclient & Hcollection & Hdelete).
  destruct (ingest_to_chromadb_negative_batch collection_add collection_count
              (open_collection delete_collection get_or_create_collection
                 collection_count client
                 (effective_collection_name collection_name) json_name
                 reset).1.2
              chunks collection_name include_types exclude_types b Hb)
    as (Hadd & Hsame & Hstats).
  split; [exact Hadd|]. split; [exact (eq_trans Hsame Hcollection)|].
  split; [exact Hclient|]. split; [exact Hdelete|].
  intros Hdocs. rewrite <- Hcollection. exact (Hstats Hdocs).
Qed.
End IngestionClientProperties.

Lemma ingest_to_chromadb_nothing_to_ingest_witness :
  Forall (λ c, passes_type_filters (Some {[ "table"%string ]}) None
                 (content_type (metadata c)) = false) sample_chunks
  ∧ sample_reset_run_nothing.2.1.2 = [Print NoChunksToIngest]
  ∧ sample_reset_run_nothing.2.1.1 = []
  ∧ sample_reset_run_nothing.1.1 = [("docling_rag_chunks"%string, [])]
  ∧ List.filter is_delete sample_reset_run_nothing.1.2
    = [DeleteCollection "docling_rag_chunks" false].
Proof.
  assert (Forall (λ c, passes_type_filters (Some {[ "table"%string ]}) None
                         (content_type (metadata c)) = false) sample_chunks)
    as Hnone by (repeat constructor).
  split; [exact Hnone|].
  pose proof (ingest_to_chromadb_nothing_to_ingest sample_delete_collection
                sample_get_or_create_collection sample_add len sample_client
                "rag.json" sample_chunks None true
                (Some {[ "table"%string ]}) None None Hnone) as H.
  cbv zeta in H. destruct H as (Htrace & _ & Hcollection & Hclient & Hdelete).
  split; [exact Htrace|]. split; [exact Hcollection|].
  split; [exact Hclient|exact Hdelete].
Defined.

Lemma ingest_to_chromadb_negative_batch_size_witness :
  -5 < 0
  ∧ add_calls sample_reset_run_negative.2.1.2 = []
  ∧ sample_reset_run_negative.2.1.1 = []
  ∧ sample_reset_run_negative.1.1 = [("docling_rag_chunks"%string, [])]
  ∧ List.filter is_delete sample_reset_run_negative.1.2
    = [DeleteCollection "docling_rag_chunks" false].
Proof.
  split; [lia|].
  pose proof (ingest_to_chromadb_negative_batch_size sample_delete_collection
                sample_get_or_create_collection sample_add len sample_client
                "rag.json" sample_chunks None true None None (-5)
                ltac:(lia)) as H.
  cbv zeta in H. destruct H as (Hadd & Hcollection & Hclient & Hdelete & _).
  split; [exact Hadd|]. split; [exact Hcollection|].
  split; [exact Hclient|exact Hdelete].
Defined.

(** ** prepare_chunk_data on the dictionaries of a file *)









